(** * Buffer-overrun fixtures of infer: a shallow embedding of the C programs

  The programs under [infer/tests/codetoanalyze/c/bufferoverrun] are small
  C functions whose names record the verdict an array-bounds analysis is
  expected to give ([_Bad], [_Good], ...).  This development gives the
  functions a meaning and proves what they really do at run time:

  - [CInt]: 32-bit [int] and [unsigned int] as [Z] with the wrap-around
    written out, and the two remainder operators of C;
  - [Mem]: local arrays as blocks of bytes, a state-and-fault monad for
    the statements that touch them, and the byte-wise [memcpy]/[memset];
  - [Arith], [IssueKinds], [Models]: the functions of [arith.c],
    [issue_kinds.c] and [models.c], one definition per C function, under
    the C name;
  - [Checker]: the one rule of the specification that is about the
    analysis and not about the programs (the bulk-operation finding). *)

From Stdlib Require Import ZArith Lia List Bool.
From stdpp Require Import base gmap strings list.

Local Open Scope Z_scope.

(** ** Machine integers *)

Module CInt.

Definition int_min : Z := - 2 ^ 31.
Definition int_max : Z := 2 ^ 31 - 1.
Definition uint_max : Z := 2 ^ 32 - 1.

(** Values of type [int] and [unsigned int]. *)
Definition in_int (z : Z) : Prop := int_min <= z <= int_max.
Definition in_uint (z : Z) : Prop := 0 <= z <= uint_max.

(** Reduction to the representable range: two's complement for [int],
    modulo [2^32] for [unsigned int]. *)
Definition wrap_int (z : Z) : Z := (z + 2 ^ 31) mod 2 ^ 32 - 2 ^ 31.
Definition wrap_uint (z : Z) : Z := z mod 2 ^ 32.

Definition add_int (a b : Z) : Z := wrap_int (a + b).
Definition sub_int (a b : Z) : Z := wrap_int (a - b).
Definition mul_int (a b : Z) : Z := wrap_int (a * b).

(** [a % b] on [int]: the remainder of the division that truncates
    towards zero; no value when [b] is zero or the quotient overflows. *)
Definition rem_int (a b : Z) : option Z :=
  if b =? 0 then None
  else if (a =? int_min) && (b =? -1) then None
  else Some (Z.rem a b).

(** [a % b] on [unsigned int]. *)
Definition rem_uint (a b : Z) : option Z :=
  if b =? 0 then None else Some (a mod b).

(** Conversion of a length argument to [size_t] (64 bits). *)
Definition to_size_t (z : Z) : Z := z mod 2 ^ 64.

(** Values of type [uint16_t] and [size_t]. *)
Definition in_ushort (z : Z) : Prop := 0 <= z <= 2 ^ 16 - 1.
Definition in_size_t (z : Z) : Prop := 0 <= z <= 2 ^ 64 - 1.

(** [a / b] on [int]: the quotient rounded towards zero, with no value in
    the two cases in which [%] has none. *)
Definition quot_int (a b : Z) : option Z :=
  if b =? 0 then None
  else if (a =? int_min) && (b =? -1) then None
  else Some (Z.quot a b).

End CInt.

(** ** Local arrays and the statements that touch them *)

Module Mem.

(** Scalar element types of the arrays in the fixtures. *)
Inductive ctype : Type := Tchar | Tint.

Definition sizeof (t : ctype) : Z :=
  match t with Tchar => 1 | Tint => 4 end.

(** A byte of a block: [None] while it is indeterminate, as every byte of
    a local array is right after its declaration. *)
Definition cell : Type := option Z.

(** What stops an execution. [Underrun a i] and [Overrun a i n]: position
    [i] of array [a] is below zero, or is not below the [n] positions
    that [a] has (elements for an indexed access, bytes for a bulk
    operation). *)
Inductive fault : Type :=
| Underrun (a : string) (i : Z)
| Overrun (a : string) (i n : Z)
| Undeclared (a : string)
| ArithFault.

(** What an execution does to memory, byte offsets and widths. *)
Inductive event : Type :=
| EvLoad (a : string) (ofs len : Z)
| EvStore (a : string) (ofs len : Z)
| EvMalloc (size : Z).

(** The arrays in scope, and the events so far, latest first. *)
Record state : Type := mkState {
  frame : gmap string (list cell);
  trace : list event
}.

Definition initial : state := mkState ∅ [].

Inductive outcome (A : Type) : Type :=
| Done (a : A)
| Fault (f : fault).
Arguments Done {A} a.
Arguments Fault {A} f.

Definition M (A : Type) : Type := state -> outcome (A * state).

Definition ret {A} (a : A) : M A := fun s => Done (a, s).

Definition bind {A B} (m : M A) (k : A -> M B) : M B := fun s =>
  match m s with
  | Done (a, s') => k a s'
  | Fault f => Fault f
  end.

Definition fail {A} (f : fault) : M A := fun _ => Fault f.

(** An arithmetic operation that may have no value. *)
Definition arith {A} (o : option A) : M A :=
  match o with Some a => ret a | None => fail ArithFault end.

Definition run {A} (m : M A) : outcome (A * state) := m initial.

(** The events of a complete execution, and [None] when it faults. *)
Definition events {A} (m : M A) : option (list event) :=
  match run m with
  | Done (_, s) => Some (trace s)
  | Fault _ => None
  end.

Module Notations.
Notation "x <- m ;; k" := (bind m (fun x => k))
  (at level 100, m at next level, right associativity).
Notation "m ;; k" := (bind m (fun _ => k))
  (at level 100, right associativity).
End Notations.
Import Notations.

(** [T a[n]]: a fresh block of [n * sizeof T] indeterminate bytes (none
    when [n] is not positive). *)
Definition with_array (t : ctype) (a : string) (n : Z) (s : state) : state :=
  mkState (<[a := replicate (Z.to_nat (n * sizeof t)) None]> (frame s))
          (trace s).

Definition declare (t : ctype) (a : string) (n : Z) : M unit := fun s =>
  Done (tt, with_array t a n s).

(** Number of elements of type [t] that fit in a block. *)
Definition elems (t : ctype) (blk : list cell) : Z :=
  Z.of_nat (length blk) / sizeof t.

(** Byte [k] of the little-endian representation of [v]. *)
Definition byte_of (v : Z) (k : nat) : Z :=
  Z.land (Z.shiftr v (8 * Z.of_nat k)) 255.

Definition encode (t : ctype) (v : Z) : list cell :=
  map (fun k => Some (byte_of v k)) (seq 0 (Z.to_nat (sizeof t))).

(** Overwrite the bytes of [blk] from offset [ofs] on with [bs]. *)
Definition write_at (ofs : nat) (bs blk : list cell) : list cell :=
  take ofs blk ++ bs ++ drop (ofs + length bs) blk.

(** [a[i] = v] for an array of element type [t]: the index is checked
    against the bounds of the block before the bytes are written. *)
Definition store (t : ctype) (a : string) (i v : Z) : M unit := fun s =>
  match frame s !! a with
  | None => Fault (Undeclared a)
  | Some blk =>
      if i <? 0 then Fault (Underrun a i)
      else if elems t blk <=? i then Fault (Overrun a i (elems t blk))
      else Done (tt, mkState
                  (<[a := write_at (Z.to_nat (i * sizeof t)) (encode t v) blk]>
                     (frame s))
                  (EvStore a (i * sizeof t) (sizeof t) :: trace s))
  end.

(** One byte read and one byte written, as the bulk operations do. *)
Definition load_byte (a : string) (k : Z) : M cell := fun s =>
  match frame s !! a with
  | None => Fault (Undeclared a)
  | Some blk =>
      if k <? 0 then Fault (Underrun a k)
      else if Z.of_nat (length blk) <=? k
      then Fault (Overrun a k (Z.of_nat (length blk)))
      else Done (default None (blk !! Z.to_nat k),
                 mkState (frame s) (EvLoad a k 1 :: trace s))
  end.

Definition store_byte (a : string) (k : Z) (c : cell) : M unit := fun s =>
  match frame s !! a with
  | None => Fault (Undeclared a)
  | Some blk =>
      if k <? 0 then Fault (Underrun a k)
      else if Z.of_nat (length blk) <=? k
      then Fault (Overrun a k (Z.of_nat (length blk)))
      else Done (tt, mkState (<[a := <[Z.to_nat k := c]> blk]> (frame s))
                             (EvStore a k 1 :: trace s))
  end.

(** [memcpy(dst, src, n)]: bytes [k], [k+1], ... in increasing order, each
    read from [src] and written to [dst]. *)
Fixpoint copy_bytes (n : nat) (k : Z) (dst src : string) : M unit :=
  match n with
  | O => ret tt
  | S n' =>
      c <- load_byte src k ;;
      store_byte dst k c ;;
      copy_bytes n' (k + 1) dst src
  end.

Definition memcpy (dst src : string) (n : Z) : M unit :=
  copy_bytes (Z.to_nat (CInt.to_size_t n)) 0 dst src.

(** [memset(dst, c, n)]: [n] bytes set to [(unsigned char) c]. *)
Fixpoint fill_bytes (n : nat) (k : Z) (dst : string) (c : Z) : M unit :=
  match n with
  | O => ret tt
  | S n' => store_byte dst k (Some c) ;; fill_bytes n' (k + 1) dst c
  end.

Definition memset (dst : string) (c n : Z) : M unit :=
  fill_bytes (Z.to_nat (CInt.to_size_t n)) 0 dst (c mod 256).

(** [malloc(size)] with the result dropped, as every call in
    [issue_kinds.c] does: only the request is recorded. *)
Definition malloc (size : Z) : M unit := fun s =>
  Done (tt, mkState (frame s) (EvMalloc size :: trace s)).

(** The fault that stops an execution, if any. *)
Definition fault_of {A} (m : M A) : option fault :=
  match run m with
  | Done _ => None
  | Fault f => Some f
  end.

(** The contents of array [a] when the execution completes. *)
Definition final {A} (a : string) (m : M A) : option (list cell) :=
  match run m with
  | Done (_, s) => frame s !! a
  | Fault _ => None
  end.

(** An index within an array of [n] elements. *)
Definition in_bounds (i n : Z) : Prop := 0 <= i < n.

(** [T a[] = {v, ...}]: a block that holds the representations of the
    initial values, one after the other. *)
Definition declare_init (t : ctype) (a : string) (vs : list Z) : M unit :=
  fun s => Done (tt, mkState (<[a := concat (map (encode t) vs)]> (frame s))
                             (trace s)).

(** The unsigned number that a sequence of bytes represents (least
    significant byte first); no value when a byte is indeterminate. *)
Fixpoint le_value (bs : list cell) : option Z :=
  match bs with
  | [] => Some 0
  | c :: bs' =>
      match c, le_value bs' with
      | Some b, Some v => Some (b + 256 * v)
      | _, _ => None
      end
  end.

(** Two's complement reading of an unsigned number of the width of [t]. *)
Definition signed (t : ctype) (u : Z) : Z :=
  if u <? 2 ^ (8 * sizeof t - 1) then u else u - 2 ^ (8 * sizeof t).

Definition decode (t : ctype) (bs : list cell) : option Z :=
  match le_value bs with
  | Some u => Some (signed t u)
  | None => None
  end.

(** The bytes of element [i] of a block. *)
Definition element (t : ctype) (i : Z) (blk : list cell) : list cell :=
  take (Z.to_nat (sizeof t)) (drop (Z.to_nat (i * sizeof t)) blk).

(** [a[i]] as a value, for an array of element type [t]: the index is
    checked as for [store]; indeterminate bytes have no value. *)
Definition load (t : ctype) (a : string) (i : Z) : M Z := fun s =>
  match frame s !! a with
  | None => Fault (Undeclared a)
  | Some blk =>
      if i <? 0 then Fault (Underrun a i)
      else if elems t blk <=? i then Fault (Overrun a i (elems t blk))
      else arith (decode t (element t i blk))
             (mkState (frame s) (EvLoad a (i * sizeof t) (sizeof t) :: trace s))
  end.

(** The value of element [i] of array [a] when the execution completes. *)
Definition final_elem {A} (t : ctype) (a : string) (i : Z) (m : M A)
  : option Z :=
  match final a m with
  | Some blk => decode t (element t i blk)
  | None => None
  end.

(** [T* a = malloc(size)] for a call that succeeds: the request is
    recorded and [a] names a fresh block of [size] indeterminate bytes. *)
Definition malloc_block (a : string) (size : Z) : M unit := fun s =>
  Done (tt, mkState (<[a := replicate (Z.to_nat size) None]> (frame s))
                    (EvMalloc size :: trace s)).

(** The size of a pointer, in bytes, where [size_t] has 64 bits. *)
Definition sizeof_ptr : Z := 8.

End Mem.

(** ** Loops *)

Module Control.

(** [for (...; cond; step) body] on the local variables [St], with the body
    and the step as one function: the variables at exit and the number of
    times the body ran, or [None] when [fuel] tests are not enough to reach
    the exit. *)
Fixpoint iterate {St : Type} (fuel : nat) (cond : St -> bool)
    (body : St -> St) (s : St) (ran : nat) : option (St * nat) :=
  match fuel with
  | O => None
  | S fuel' =>
      if cond s then iterate fuel' cond body (body s) (S ran)
      else Some (s, ran)
  end.

(** The same loop with a body that touches memory: the variables at exit,
    [None] when [fuel] tests are not enough, and the fault of the body
    when it has one. *)
Fixpoint for_loop {St : Type} (fuel : nat) (cond : St -> bool)
    (body : St -> Mem.M St) (s : St) : Mem.M (option St) :=
  match fuel with
  | O => Mem.ret None
  | S fuel' =>
      if cond s
      then Mem.bind (body s) (fun s' => for_loop fuel' cond body s')
      else Mem.ret (Some s)
  end.

End Control.

(** ** arith.c *)

Module Arith.
Import CInt Mem Mem.Notations.

Definition modulo_signed_Bad (i : Z) : M unit :=
  declare Tchar "arr" 5 ;;
  r <- arith (rem_int i 5) ;;
  store Tchar "arr" r 123.

Definition modulo_unsigned_Good (i : Z) : M unit :=
  declare Tchar "arr" 5 ;;
  r <- arith (rem_uint i 5) ;;
  store Tchar "arr" r 123.

Definition modulo_unsigned_var_Good (len i : Z) : M unit :=
  declare Tchar "arr" len ;;
  r <- arith (rem_uint i len) ;;
  store Tchar "arr" r 123.

Definition modulo_signed (a b : Z) : option Z := rem_int a b.

Definition plus_linear_min (i : Z) : Z :=
  let linear := add_int i 1 in
  if (0 <=? i) && (i <? 10) then add_int linear i
  else 0.

Definition plus_linear_min_Good : M unit :=
  declare Tint "a" 20 ;;
  store Tint "a" (plus_linear_min 9) 1.

Definition plus_linear_min_Bad : M unit :=
  declare Tint "a" 19 ;;
  store Tint "a" (plus_linear_min 9) 1.

Definition modulo_signed_Good (i : Z) : M unit :=
  declare Tchar "arr" 5 ;;
  if 0 <=? i then (r <- arith (rem_int i 5) ;; store Tchar "arr" r 123)
  else ret tt.

Definition modulo_signed_neg_Bad (i : Z) : M unit :=
  declare Tchar "arr" 5 ;;
  r <- arith (rem_int i (-5)) ;;
  store Tchar "arr" r 123.

Definition modulo_signed_neg_Good (i : Z) : M unit :=
  declare Tchar "arr" 5 ;;
  if 0 <=? i then (r <- arith (rem_int i (-5)) ;; store Tchar "arr" r 123)
  else ret tt.

Definition modulo_signed_Good2 (i : Z) : M unit :=
  declare Tchar "arr" 5 ;;
  j <- arith (rem_int i 5) ;;
  if 0 <=? j then store Tchar "arr" j 123 else ret tt.

(** [i] is a [uint16_t]: it is promoted to [int] and the remainder is the
    signed one. *)
Definition modulo_unsigned_short_Good (i : Z) : M unit :=
  declare Tchar "arr" 5 ;;
  r <- arith (rem_int i 5) ;;
  store Tchar "arr" r 123.

(** [i] is an [int] and [len] an [unsigned int]: [i] is converted to
    [unsigned int] and the remainder is the unsigned one. *)
Definition modulo_signed_var_Bad_FN (len i : Z) : M unit :=
  declare Tchar "arr" len ;;
  r <- arith (rem_uint (wrap_uint i) len) ;;
  store Tchar "arr" r 123.

Definition modulo_unsigned (a b : Z) : option Z := rem_uint a b.

Definition modulo_call_Good (len i : Z) : M unit :=
  declare Tchar "arr" len ;;
  r <- arith (modulo_unsigned i len) ;;
  store Tchar "arr" r 123.

(** [len] is an [unsigned int] passed for the [int] parameter [b]. *)
Definition modulo_call_Bad_FN (len i : Z) : M unit :=
  declare Tchar "arr" len ;;
  r <- arith (modulo_signed i (wrap_int len)) ;;
  store Tchar "arr" r 123.

Definition division_of_zero_Good (x : Z) : option Z :=
  let i := mul_int 4 x in
  match quot_int i 2 with
  | Some i =>
      match quot_int i 2 with
      | Some i => Some i
      | None => None
      end
  | None => None
  end.

Definition plus_linear_min2_Good_FP : M unit :=
  declare Tint "a" 10 ;;
  store Tint "a" (plus_linear_min 4) 1.

Definition plus_linear_min3_Good_FP : M unit :=
  declare Tint "a" 20 ;;
  store Tint "a" (plus_linear_min 15) 1.

End Arith.

(** ** issue_kinds.c *)

Module IssueKinds.
Import CInt Mem Mem.Notations Control.

Definition l1_concrete_overrun_Bad : M unit :=
  declare Tint "a" 10 ;;
  store Tint "a" 10 0.

Definition l1_concrete_underrun_Bad : M unit :=
  declare Tint "a" 10 ;;
  store Tint "a" (-1) 0.

Definition zero_or_ten (ten : Z) : Z :=
  if negb (ten =? 0) then 10 else 0.

Definition l2_symbolic_no_overrun_Good (n : Z) : M unit :=
  declare Tint "a" n ;;
  if 0 <? n then store Tint "a" (sub_int n 1) 0 else ret tt.

Definition may_underrun_symbolic_Nowarn_Good (n : Z) : M unit :=
  declare Tint "a" n ;;
  store Tint "a" (sub_int n 1) 0.

Definition alloc_may_be_negative_Bad : M unit :=
  malloc (sub_int (zero_or_ten 0) 5).

Definition alloc_is_big_Bad : M unit :=
  malloc (mul_int (mul_int (mul_int 2 1000) 1000) 1000).

(** The loop of [zero_to_infty] on its two variables [(r, i)]. *)
Definition zero_to_infty_loop (fuel : nat) : option (Z * Z * nat) :=
  iterate fuel
    (fun '(r, i) => i <? zero_or_ten 0)
    (fun '(r, i) => (add_int r 1, add_int i 1))
    (0, 0) O.

Definition zero_to_infty (fuel : nat) : option Z :=
  match zero_to_infty_loop fuel with
  | Some ((r, _), _) => Some r
  | None => None
  end.

Definition l1_symbolic_overrun_Bad (i : Z) : M unit :=
  declare Tint "a" 10 ;;
  if 10 <=? i then store Tint "a" i 0 else ret tt.

Definition l1_symbolic_underrun_Bad (i : Z) : M unit :=
  declare Tint "a" 10 ;;
  if i <? 0 then store Tint "a" i 0 else ret tt.

Definition l2_symbolic_overrun_Bad (n : Z) : M unit :=
  declare Tint "a" n ;;
  store Tint "a" n 0.

Definition less_than (i n : Z) : Z := if i <? n then 1 else 0.

(** The loops below keep [i] as their one variable; the body is the store
    followed by [i++]. *)
Definition l4_widened_overrun_Bad (fuel : nat) : M (option Z) :=
  declare Tint "a" 10 ;;
  for_loop fuel (fun i => negb (less_than i 11 =? 0))
    (fun i => store Tint "a" i 0 ;; ret (add_int i 1)) 0.

Definition l4_widened_no_overrun_Good_FP (fuel : nat) : M (option Z) :=
  declare Tint "a" 10 ;;
  for_loop fuel (fun i => negb (less_than i 10 =? 0))
    (fun i => store Tint "a" i 0 ;; ret (add_int i 1)) 0.

(** [unknown_function] has no definition in the sources: the value that
    its call returns is the parameter of the functions that call it. *)
Definition l5_external_Warn_Bad (unknown_function : Z) : M unit :=
  declare Tint "a" 10 ;;
  store Tint "a" unknown_function 0.

Definition s2_symbolic_widened_Bad (fuel : nat) (n : Z) : M (option Z) :=
  declare Tint "a" n ;;
  for_loop fuel (fun i => negb (less_than i (mul_int 2 n) =? 0))
    (fun i => store Tint "a" i 0 ;; ret (add_int i 1)) n.

Definition s2_symbolic_widened_Good_FP (fuel : nat) (n : Z) : M (option Z) :=
  declare Tint "a" n ;;
  for_loop fuel (fun i => negb (less_than i n =? 0))
    (fun i => store Tint "a" i 0 ;; ret (add_int i 1)) n.

Definition may_over_or_underrun_symbolic_Nowarn_Good (n : Z) : M unit :=
  declare Tint "a" 10 ;;
  store Tint "a" n 0.

Definition may_over_or_underrun_symbolic2_Nowarn_Good (n : Z) : M unit :=
  declare Tint "a" n ;;
  store Tint "a" 1 0.

Definition l1_unknown_function_Bad (unknown_function : Z) : M unit :=
  declare Tint "a" 5 ;;
  let idx := mul_int unknown_function 10 in
  if 10 <=? idx then
    if idx <=? 10 then store Tint "a" idx 0 else ret tt
  else ret tt.

(** [None] when [fuel] is not enough for the loop of [zero_to_infty]. *)
Definition False_Issue_Type_l3_unknown_function_Bad (fuel : nat)
    (unknown_function : Z) : M (option unit) :=
  match zero_to_infty fuel with
  | None => ret None
  | Some r =>
      malloc_block "a" (to_size_t (to_size_t (add_int r 5) * sizeof Tint)) ;;
      let idx := mul_int unknown_function 10 in
      (if 10 <=? idx then
         if idx <=? 10 then store Tint "a" idx 0 else ret tt
       else ret tt) ;;
      ret (Some tt)
  end.

Definition l2_concrete_overrun_Bad : M unit :=
  declare Tint "a" 10 ;;
  store Tint "a" (zero_or_ten 1) 0.

Definition l2_concrete_underrun_Bad : M unit :=
  declare Tint "a" 9 ;;
  store Tint "a" (sub_int (zero_or_ten 0) 1) 0.

Definition l2_concrete_no_overrun_Good_FP : M unit :=
  declare Tint "a" 10 ;;
  store Tint "a" (zero_or_ten 0) 0.

Definition l2_concrete_no_underrun_Good_FP : M unit :=
  declare Tint "a" 9 ;;
  store Tint "a" (sub_int (zero_or_ten 1) 1) 0.

Definition l3_concrete_overrun_Bad : M unit :=
  declare Tint "a" (add_int (zero_or_ten 0) 5) ;;
  store Tint "a" (zero_or_ten 1) 0.

Definition l3_concrete_underrun_Bad : M unit :=
  declare Tint "a" 10 ;;
  store Tint "a" (sub_int (zero_or_ten 0) 1) 0.

Definition l3_concrete_no_overrun_Good_FP : M unit :=
  declare Tint "a" (add_int (zero_or_ten 1) 5) ;;
  store Tint "a" (zero_or_ten 1) 0.

Definition l3_concrete_no_underrun_Good_FP : M unit :=
  declare Tint "a" 10 ;;
  store Tint "a" (sub_int (zero_or_ten 1) 1) 0.

Definition alloc_is_negative_Bad : M unit := malloc (-2).

Definition alloc_may_be_negative_Good_FP : M unit :=
  malloc (sub_int (zero_or_ten 1) 5).

Definition alloc_is_zero_Bad : M unit :=
  malloc (to_size_t (to_size_t 0 * sizeof Tint)).

Definition alloc_may_be_big_Bad : M unit :=
  malloc (add_int
            (mul_int (mul_int (mul_int (zero_or_ten 1) 100) 1000) 1000) 1).

Definition alloc_may_be_big_Good_FP : M unit :=
  malloc (add_int
            (mul_int (mul_int (mul_int (zero_or_ten 1) 100) 1000) 1000) 1).

End IssueKinds.

(** ** models.c *)

Module Models.
Import CInt Mem Mem.Notations.

Definition memcpy_bad1 : M unit :=
  declare Tint "arr1" 10 ;;
  declare Tint "arr2" 20 ;;
  memcpy "arr1" "arr2" 44.

Definition memcpy_good2 : M unit :=
  declare Tint "arr1" 10 ;;
  declare Tint "arr2" 20 ;;
  memcpy "arr2" "arr1" 0.

Definition memset_good2 : M unit :=
  declare Tint "arr" 10 ;;
  memset "arr" 0 0.

(** [fgetc] is the one of the C library: the value that its call returns
    is the parameter [c] of the functions that call it. *)
Definition fgetc_m1_bad (c : Z) : M unit :=
  declare Tint "arr" 10000 ;;
  store Tint "arr" c 42.

Definition fgetc_255_bad (c : Z) : M unit :=
  declare Tint "arr" 255 ;;
  if 0 <=? c then store Tint "arr" c 42 else ret tt.

Definition fgetc_256_good (c : Z) : M unit :=
  declare Tint "arr" 256 ;;
  if 0 <=? c then store Tint "arr" c 42 else ret tt.

Definition fgetc_256_bad (c : Z) : M unit :=
  declare Tint "arr" 256 ;;
  store Tint "arr" (add_int c 1) 42.

Definition fgetc_257_good (c : Z) : M unit :=
  declare Tint "arr" 257 ;;
  store Tint "arr" (add_int c 1) 42.

Definition memcpy_bad2 : M unit :=
  declare Tint "arr1" 10 ;;
  declare Tint "arr2" 20 ;;
  memcpy "arr2" "arr1" 44.

Definition memcpy_bad3 : M unit :=
  declare Tint "arr1" 10 ;;
  declare Tint "arr2" 20 ;;
  memcpy "arr1" "arr2" (-1).

Definition memcpy_good1 : M unit :=
  declare Tint "arr1" 10 ;;
  declare Tint "arr2" 20 ;;
  memcpy "arr2" "arr1" 40.

Definition memcpy_good3 : M unit :=
  declare Tint "arr1" 10 ;;
  declare Tint "arr2" 20 ;;
  memcpy "arr2" "arr1" 20.

Definition memcpy_good4 : M unit :=
  declare Tint "src" 3 ;;
  declare Tint "dst" 3 ;;
  memcpy "dst" "src" (3 * sizeof Tint).

(** [len] is a [size_t]. *)
Definition memcpy_len_Good (len : Z) : M unit :=
  declare Tchar "dst" len ;;
  declare Tchar "src" len ;;
  memcpy "dst" "src" len.

Definition call_memcpy_len1_Good : M unit := memcpy_len_Good 40.

Definition memset_bad1 : M unit :=
  declare Tint "arr" 10 ;;
  memset "arr" 0 44.

Definition memset_bad2 : M unit :=
  declare Tint "arr" 10 ;;
  memset "arr" 0 (-1).

Definition memset_good1 : M unit :=
  declare Tint "arr" 10 ;;
  memset "arr" 0 40.

Definition memset_good3 : M unit :=
  declare Tint "arr" 10 ;;
  memset "arr" 0 20.

Definition memset_good4 : M unit :=
  declare Tint "arr" 10 ;;
  memset "arr" 0 (10 * sizeof Tint).

Definition memcpy_contents_Good : M unit :=
  declare_init Tint "src" [5; 5; 5] ;;
  declare Tint "dst" 3 ;;
  memcpy "dst" "src" (3 * sizeof Tint) ;;
  declare Tint "a" 6 ;;
  i <- load Tint "dst" 0 ;;
  store Tint "a" i 0.

Definition memcpy_contents_Bad : M unit :=
  declare_init Tint "src" [5; 5; 5] ;;
  declare Tint "dst" 3 ;;
  memcpy "dst" "src" (3 * sizeof Tint) ;;
  declare Tint "a" 5 ;;
  i <- load Tint "dst" 0 ;;
  store Tint "a" i 0.

(** In the next two functions [dst] points to the first element of the
    array: the accesses through [dst] are accesses to that array, and
    [sizeof(dst)] is the size of a pointer. *)
Definition memcpy_bad4 : M unit :=
  declare Tint "src" 1 ;;
  declare Tint "buff" 1 ;;
  memcpy "buff" "src" sizeof_ptr.

Definition memset_bad3 : M unit :=
  declare Tint "arr" 1 ;;
  memset "arr" 0 sizeof_ptr.

(** The two [int] variables whose address is taken are blocks of one
    element. *)
Definition memcpy_integer_Good : M unit :=
  declare_init Tint "src" [5] ;;
  declare Tint "dst" 1 ;;
  memcpy "dst" "src" (sizeof Tint) ;;
  declare Tint "a" 10 ;;
  i <- load Tint "dst" 0 ;;
  store Tint "a" i 0.

Definition memcpy_integer_Bad : M unit :=
  declare_init Tint "src" [5] ;;
  declare Tint "dst" 1 ;;
  memcpy "dst" "src" (sizeof Tint) ;;
  declare Tint "a" 5 ;;
  i <- load Tint "dst" 0 ;;
  store Tint "a" i 0.

End Models.

(** ** The bulk-operation rule of the analysis *)

Module Checker.

(** An interval with concrete bounds. *)
Record interval : Type := mkInterval { lower : Z; upper : Z }.

Definition exactly (z : Z) : interval := mkInterval z z.

(** Modelled from the spec: the analysis itself is not among the sources.
    For a bulk operation the interval of the length argument is checked
    against the declared size of the destination, in bytes: a length that
    may be negative, or whose upper bound exceeds the size, is a finding. *)
Definition bulk_finding (len : interval) (dst_size : Z) : bool :=
  (lower len <? 0) || (dst_size <? upper len).

End Checker.

(** * Properties *)

Import CInt Mem Mem.Notations Control Arith IssueKinds Models Checker.

(** ** Machine integers *)

Lemma wrap_int_id z : in_int z -> wrap_int z = z.
Proof.
  unfold in_int, int_min, int_max, wrap_int. intros H.
  rewrite Z.mod_small; lia.
Qed.

Lemma wrap_int_range z : in_int (wrap_int z).
Proof.
  unfold in_int, int_min, int_max, wrap_int.
  pose proof (Z.mod_pos_bound (z + 2 ^ 31) (2 ^ 32) ltac:(lia)). lia.
Qed.

(** The remainder by a positive constant never meets the two cases in
    which [%] has no value. *)
Lemma rem_int_pos a b : 0 < b -> rem_int a b = Some (Z.rem a b).
Proof.
  intros Hb. unfold rem_int.
  destruct (Z.eqb_spec b 0); [lia|].
  destruct (Z.eqb_spec b (-1)); [lia|].
  now rewrite andb_false_r.
Qed.

(** The remainder has the sign of the dividend and is smaller than the
    divisor in absolute value. *)
Lemma rem_sign_bound a b :
  0 < b ->
  (0 <= a -> 0 <= Z.rem a b < b) /\ (a <= 0 -> - b < Z.rem a b <= 0).
Proof.
  intros Hb. split; intros Ha.
  - now apply Z.rem_bound_pos.
  - pose proof (Z.rem_bound_pos (- a) b ltac:(lia) Hb) as H.
    rewrite Z.rem_opp_l in H by lia. lia.
Qed.

Lemma rem_uint_pos a b : 0 < b -> rem_uint a b = Some (a mod b).
Proof.
  intros Hb. unfold rem_uint. destruct (Z.eqb_spec b 0); [lia|reflexivity].
Qed.

(** ** The monad and the store *)

Lemma bind_declare {A} t a n (k : M A) s :
  (declare t a n ;; k) s = k (with_array t a n s).
Proof. reflexivity. Qed.

Lemma bind_arith_Some {A B} (x : A) (k : A -> M B) s :
  (r <- arith (Some x) ;; k r) s = k x s.
Proof. reflexivity. Qed.

Lemma sizeof_pos t : 0 < sizeof t.
Proof. destruct t; simpl; lia. Qed.

(** A declared array has the declared number of elements, and none when
    the declared number is not positive. *)
Lemma elems_declared t n :
  elems t (replicate (Z.to_nat (n * sizeof t)) None) = Z.max 0 n.
Proof.
  unfold elems. rewrite length_replicate.
  pose proof (sizeof_pos t) as Hs.
  destruct (Z.le_gt_cases n 0) as [Hn|Hn].
  - rewrite Z2Nat.nonpos by nia. simpl. rewrite Z.max_l by lia.
    apply Z.div_0_l. lia.
  - rewrite Z2Nat.id by nia. rewrite Z.max_r by lia. apply Z.div_mul. lia.
Qed.

Section StoreDeclared.

Variables (t : ctype) (a : string) (n i v : Z) (s : state).

Lemma store_declared_under :
  i < 0 -> store t a i v (with_array t a n s) = Fault (Underrun a i).
Proof.
  intros Hi. unfold store, with_array. cbn [frame trace].
  rewrite lookup_insert_eq.
  destruct (Z.ltb_spec i 0); [reflexivity|lia].
Qed.

Lemma store_declared_over :
  0 <= i -> Z.max 0 n <= i ->
  store t a i v (with_array t a n s) = Fault (Overrun a i (Z.max 0 n)).
Proof.
  intros Hi Hn. unfold store, with_array. cbn [frame trace].
  rewrite lookup_insert_eq, elems_declared.
  destruct (Z.ltb_spec i 0); [lia|].
  destruct (Z.leb_spec (Z.max 0 n) i); [reflexivity|lia].
Qed.

Lemma store_declared_in :
  in_bounds i n ->
  exists s', store t a i v (with_array t a n s) = Done (tt, s') /\
             trace s' = EvStore a (i * sizeof t) (sizeof t) :: trace s.
Proof.
  intros [Hi Hn]. unfold store, with_array. cbn [frame trace].
  rewrite lookup_insert_eq, elems_declared.
  destruct (Z.ltb_spec i 0); [lia|].
  destruct (Z.leb_spec (Z.max 0 n) i); [lia|].
  eexists. split; reflexivity.
Qed.

End StoreDeclared.

(** ** arith.c *)

(** What stops [modulo_signed_Bad]: nothing when the remainder is an index
    of [arr], and an underrun at the remainder when it is negative. *)
Lemma modulo_signed_Bad_fault i :
  in_int i ->
  fault_of (modulo_signed_Bad i) =
  if Z.rem i 5 <? 0 then Some (Underrun "arr" (Z.rem i 5)) else None.
Proof.
  intros _. unfold fault_of, run, modulo_signed_Bad.
  rewrite bind_declare, rem_int_pos by lia. rewrite bind_arith_Some.
  destruct (rem_sign_bound i 5 ltac:(lia)) as [Hpos Hneg].
  destruct (Z.ltb_spec (Z.rem i 5) 0) as [Hr|Hr].
  - now rewrite store_declared_under.
  - destruct (store_declared_in Tchar "arr" 5 (Z.rem i 5) 123 initial)
      as (s' & -> & _); [|reflexivity].
    unfold in_bounds. destruct (Z.le_ge_cases 0 i); lia.
Qed.

(** C1: for every [int] value [i], [i % 5] is in [[-4, 4]]; for some
    negative [i] it is negative, so it is not confined to [[0, 4]]; and
    for some [i] the store [arr[i % 5]] of [modulo_signed_Bad] into
    [char arr[5]] is out of bounds (below the array). *)
Theorem modulo_signed_spans_negative :
  (forall i, in_int i ->
     exists r, modulo_signed i 5 = Some r /\ -4 <= r <= 4) /\
  (exists i r, in_int i /\ i < 0 /\ modulo_signed i 5 = Some r /\ r < 0) /\
  ~ (forall i, in_int i ->
       exists r, modulo_signed i 5 = Some r /\ 0 <= r <= 4) /\
  (exists i r, in_int i /\ modulo_signed i 5 = Some r /\
     ~ in_bounds r 5 /\
     fault_of (modulo_signed_Bad i) = Some (Underrun "arr" r)).
Proof.
  assert (Hm1 : in_int (-1)) by (unfold in_int, int_min, int_max; lia).
  split; [|split; [|split]].
  - intros i _. exists (Z.rem i 5). unfold modulo_signed.
    rewrite rem_int_pos by lia. split; [reflexivity|].
    destruct (rem_sign_bound i 5 ltac:(lia)) as [Hpos Hneg].
    destruct (Z.le_ge_cases 0 i); lia.
  - exists (-1), (-1). split; [exact Hm1|].
    split; [lia|]. split; [reflexivity|lia].
  - intros H. destruct (H (-1) Hm1) as (r & Hr & Hb).
    vm_compute in Hr. injection Hr as <-. lia.
  - exists (-1), (-1). split; [exact Hm1|]. split; [reflexivity|].
    split; [unfold in_bounds; lia|].
    now rewrite modulo_signed_Bad_fault.
Qed.

Lemma modulo_signed_spans_negative_witness :
  in_int (-7) /\ exists r, modulo_signed (-7) 5 = Some r /\ -4 <= r <= 4.
Proof.
  assert (H : in_int (-7)) by (unfold in_int, int_min, int_max; lia).
  split; [exact H|].
  exact (proj1 modulo_signed_spans_negative (-7) H).
Defined.

(** C9: for every [unsigned int] [i] and [len > 0], [i % len] is at least
    [0] and below [len]; the stores of [modulo_unsigned_Good] into
    [char arr[5]] and of [modulo_unsigned_var_Good] into [char arr[len]]
    are in bounds on every execution. *)
Theorem modulo_unsigned_in_bounds i len :
  in_uint i -> in_uint len -> 0 < len ->
  (exists r, rem_uint i len = Some r /\ in_bounds r len) /\
  (exists r, rem_uint i 5 = Some r /\ in_bounds r 5 /\
     fault_of (modulo_unsigned_Good i) = None /\
     events (modulo_unsigned_Good i) = Some [EvStore "arr" r 1]) /\
  (exists r, rem_uint i len = Some r /\
     fault_of (modulo_unsigned_var_Good len i) = None /\
     events (modulo_unsigned_var_Good len i) = Some [EvStore "arr" r 1]).
Proof.
  intros Hi Hlen Hpos.
  assert (Hvar : forall n, 0 < n -> in_bounds (i mod n) n)
    by (intros n Hn; unfold in_bounds; apply Z.mod_pos_bound; lia).
  assert (Hrun : forall n, 0 < n ->
            exists s', store Tchar "arr" (i mod n) 123
                         (with_array Tchar "arr" n initial) = Done (tt, s') /\
                       trace s' = [EvStore "arr" (i mod n) 1]).
  { intros n Hn.
    destruct (store_declared_in Tchar "arr" n (i mod n) 123 initial (Hvar n Hn))
      as (s' & Hs & Ht).
    exists s'. split; [exact Hs|]. rewrite Ht. simpl. now rewrite Z.mul_1_r. }
  split; [|split].
  - exists (i mod len). rewrite rem_uint_pos by lia. auto.
  - exists (i mod 5). rewrite rem_uint_pos by lia.
    destruct (Hrun 5 ltac:(lia)) as (s' & Hs & Ht).
    unfold fault_of, events, run, modulo_unsigned_Good.
    rewrite bind_declare, rem_uint_pos, bind_arith_Some, Hs, Ht by lia.
    auto using Hvar with lia.
  - exists (i mod len). rewrite rem_uint_pos by lia.
    destruct (Hrun len Hpos) as (s' & Hs & Ht).
    unfold fault_of, events, run, modulo_unsigned_var_Good.
    rewrite bind_declare, rem_uint_pos, bind_arith_Some, Hs, Ht by lia.
    auto.
Qed.

Lemma modulo_unsigned_in_bounds_witness :
  in_uint 13 /\ in_uint 4 /\ 0 < 4 /\
  exists r, rem_uint 13 4 = Some r /\ in_bounds r 4.
Proof.
  assert (Hi : in_uint 13) by (unfold in_uint, uint_max; lia).
  assert (Hlen : in_uint 4) by (unfold in_uint, uint_max; lia).
  assert (Hpos : 0 < 4) by lia.
  exact (conj Hi (conj Hlen (conj Hpos
           (proj1 (modulo_unsigned_in_bounds 13 4 Hi Hlen Hpos))))).
Defined.

(** C10: [plus_linear_min(i)] is [2*i + 1] for every [int] [i] with
    [0 <= i < 10] and [0] for every other [i]; so [plus_linear_min(9)] is
    [19], an index of [int a[20]] in [plus_linear_min_Good] and one past
    the end of [int a[19]] in [plus_linear_min_Bad]. *)
Theorem plus_linear_min_value :
  (forall i, in_int i -> 0 <= i < 10 -> plus_linear_min i = 2 * i + 1) /\
  (forall i, in_int i -> ~ (0 <= i < 10) -> plus_linear_min i = 0) /\
  plus_linear_min 9 = 19 /\
  in_bounds (plus_linear_min 9) 20 /\
  fault_of plus_linear_min_Good = None /\
  events plus_linear_min_Good = Some [EvStore "a" (19 * 4) 4] /\
  ~ in_bounds (plus_linear_min 9) 19 /\
  fault_of plus_linear_min_Bad = Some (Overrun "a" 19 19).
Proof.
  split; [|split].
  - intros i _ Hi. unfold plus_linear_min, add_int.
    destruct (Z.leb_spec 0 i); [|lia]. destruct (Z.ltb_spec i 10); [|lia].
    simpl. rewrite (wrap_int_id (i + 1)), wrap_int_id;
      unfold in_int, int_min, int_max; lia.
  - intros i _ Hi. unfold plus_linear_min.
    destruct (Z.leb_spec 0 i); destruct (Z.ltb_spec i 10); simpl; lia.
  - assert (H9 : plus_linear_min 9 = 19) by (vm_compute; reflexivity).
    rewrite H9. unfold in_bounds.
    split; [reflexivity|]. split; [lia|].
    split; [vm_compute; reflexivity|]. split; [vm_compute; reflexivity|].
    split; [lia|vm_compute; reflexivity].
Qed.

Lemma plus_linear_min_value_witness :
  in_int 4 /\ 0 <= 4 < 10 /\ plus_linear_min 4 = 2 * 4 + 1.
Proof.
  assert (H : in_int 4) by (unfold in_int, int_min, int_max; lia).
  assert (H' : 0 <= 4 < 10) by lia.
  exact (conj H (conj H' (proj1 plus_linear_min_value 4 H H'))).
Defined.

(** ** issue_kinds.c *)

(** C2: [l1_concrete_overrun_Bad] writes [int a[10]] at index [10], which
    is not below the size, and [l1_concrete_underrun_Bad] writes it at
    index [-1], which is below zero; the one execution of each stops there,
    a definite overrun and a definite underrun, and so does the store from
    any state in which [a] has just been declared. *)
Theorem l1_concrete_definite :
  fault_of l1_concrete_overrun_Bad = Some (Overrun "a" 10 10) /\
  ~ 10 < 10 /\
  fault_of l1_concrete_underrun_Bad = Some (Underrun "a" (-1)) /\
  ~ 0 <= -1 /\
  (forall s v, store Tint "a" 10 v (with_array Tint "a" 10 s) =
               Fault (Overrun "a" 10 10)) /\
  (forall s v, store Tint "a" (-1) v (with_array Tint "a" 10 s) =
               Fault (Underrun "a" (-1))).
Proof.
  split; [vm_compute; reflexivity|]. split; [lia|].
  split; [vm_compute; reflexivity|]. split; [lia|].
  split; intros s v.
  - now rewrite store_declared_over by lia.
  - now rewrite store_declared_under by lia.
Qed.

(** What [l2_symbolic_no_overrun_Good] does: one store, at the last element,
    when [n] is positive, and nothing otherwise. *)
Lemma l2_symbolic_no_overrun_Good_run n :
  in_int n ->
  fault_of (l2_symbolic_no_overrun_Good n) = None /\
  events (l2_symbolic_no_overrun_Good n) =
  Some (if 0 <? n then [EvStore "a" ((n - 1) * 4) 4] else []).
Proof.
  intros Hn. unfold fault_of, events, run, l2_symbolic_no_overrun_Good.
  rewrite bind_declare. destruct (Z.ltb_spec 0 n) as [Hpos|Hneg].
  - unfold sub_int. rewrite wrap_int_id
      by (unfold in_int, int_min, int_max in *; lia).
    destruct (store_declared_in Tint "a" n (n - 1) 0 initial)
      as (s' & -> & ->); [unfold in_bounds; lia|].
    split; reflexivity.
  - split; reflexivity.
Qed.

(** C4: under the guard [n > 0] the index [n - 1] is within an array of
    size [n], so [l2_symbolic_no_overrun_Good] never accesses out of
    bounds; without the guard, [may_underrun_symbolic_Nowarn_Good] is out
    of bounds for [n = 0]. *)
Theorem guarded_last_element_in_bounds :
  (forall n, in_int n -> 0 < n -> in_bounds (sub_int n 1) n) /\
  (forall n, in_int n -> fault_of (l2_symbolic_no_overrun_Good n) = None) /\
  (forall n, in_int n -> 0 < n ->
     events (l2_symbolic_no_overrun_Good n) =
     Some [EvStore "a" (sub_int n 1 * 4) 4]) /\
  (exists n, in_int n /\ ~ in_bounds (sub_int n 1) n /\
     fault_of (may_underrun_symbolic_Nowarn_Good n) =
     Some (Underrun "a" (sub_int n 1))) /\
  fault_of (may_underrun_symbolic_Nowarn_Good 0) = Some (Underrun "a" (-1)).
Proof.
  assert (Hsub : forall n, in_int n -> 0 < n -> sub_int n 1 = n - 1).
  { intros n Hn Hpos. unfold sub_int. apply wrap_int_id.
    unfold in_int, int_min, int_max in *. lia. }
  split; [|split; [|split; [|split]]].
  - intros n Hn Hpos. rewrite Hsub by assumption. unfold in_bounds. lia.
  - intros n Hn. apply l2_symbolic_no_overrun_Good_run, Hn.
  - intros n Hn Hpos. rewrite Hsub by assumption.
    destruct (l2_symbolic_no_overrun_Good_run n Hn) as [_ ->].
    destruct (Z.ltb_spec 0 n); [reflexivity|lia].
  - exists 0. split; [unfold in_int, int_min, int_max; lia|].
    split; [vm_compute; intros [H _]; now apply H|].
    vm_compute. reflexivity.
  - vm_compute. reflexivity.
Qed.

Lemma guarded_last_element_in_bounds_witness :
  in_int 3 /\ 0 < 3 /\ in_bounds (sub_int 3 1) 3.
Proof.
  assert (H : in_int 3) by (unfold in_int, int_min, int_max; lia).
  assert (H' : 0 < 3) by lia.
  exact (conj H (conj H' (proj1 guarded_last_element_in_bounds 3 H H'))).
Defined.

(** C6: [zero_or_ten(ten)] is [10] when [ten] is not zero and [0] when it
    is; so the size that [alloc_may_be_negative_Bad] passes to [malloc],
    [zero_or_ten(0) - 5], is exactly [-5] on its one execution. *)
Theorem zero_or_ten_value :
  (forall ten, ten <> 0 -> zero_or_ten ten = 10) /\
  zero_or_ten 0 = 0 /\
  sub_int (zero_or_ten 0) 5 = -5 /\
  sub_int (zero_or_ten 0) 5 <= 0 /\
  events alloc_may_be_negative_Bad = Some [EvMalloc (-5)].
Proof.
  split; [|split; [|split; [|split]]];
    try (vm_compute; reflexivity); try (vm_compute; discriminate).
  intros ten Hten. unfold zero_or_ten.
  destruct (Z.eqb_spec ten 0); [contradiction|reflexivity].
Qed.

Lemma zero_or_ten_value_witness : 7 <> 0 /\ zero_or_ten 7 = 10.
Proof.
  assert (H : 7 <> 0) by discriminate.
  exact (conj H (proj1 zero_or_ten_value 7 H)).
Defined.

(** C7: [zero_to_infty] terminates and returns exactly [0]: the bound
    [zero_or_ten(0)] is [0], the test fails at once, the body never runs,
    and every value the function can return is both at least and at most
    [0]. *)
Theorem zero_to_infty_returns_zero :
  zero_or_ten 0 = 0 /\
  (forall fuel, zero_to_infty_loop (S fuel) = Some ((0, 0), O)) /\
  (forall fuel, zero_to_infty (S fuel) = Some 0) /\
  (forall fuel v, zero_to_infty fuel = Some v -> 0 <= v <= 0).
Proof.
  assert (Hloop : forall fuel, zero_to_infty_loop (S fuel) = Some ((0, 0), O))
    by reflexivity.
  assert (Hret : forall fuel, zero_to_infty (S fuel) = Some 0)
    by (intros fuel; unfold zero_to_infty; now rewrite Hloop).
  split; [reflexivity|]. split; [exact Hloop|]. split; [exact Hret|].
  intros [|fuel] v Hv.
  - discriminate Hv.
  - rewrite Hret in Hv. injection Hv as <-. lia.
Qed.

Lemma zero_to_infty_returns_zero_witness :
  zero_to_infty 1 = Some 0 /\ 0 <= 0 <= 0.
Proof.
  assert (H : zero_to_infty 1 = Some 0) by reflexivity.
  exact (conj H (proj2 (proj2 (proj2 zero_to_infty_returns_zero)) 1%nat 0 H)).
Defined.

(** C8: in [alloc_is_big_Bad] the expression [2 * 1000 * 1000 * 1000]
    evaluates in 32-bit signed arithmetic to exactly [2000000000]: every
    product along the way is an [int] value, so nothing wraps, and the
    result is below [2^31]. *)
Theorem alloc_is_big_exact :
  mul_int (mul_int (mul_int 2 1000) 1000) 1000 = 2000000000 /\
  mul_int (mul_int (mul_int 2 1000) 1000) 1000 = 2 * 1000 * 1000 * 1000 /\
  in_int (2 * 1000) /\ in_int (2 * 1000 * 1000) /\
  in_int (2 * 1000 * 1000 * 1000) /\
  2000000000 < 2 ^ 31 /\
  events alloc_is_big_Bad = Some [EvMalloc 2000000000].
Proof.
  unfold in_int, int_min, int_max.
  repeat (split; [first [vm_compute; reflexivity | lia]|]).
  vm_compute. reflexivity.
Qed.

(** ** models.c *)

(** A copy that is longer than the destination, from a source that is
    longer than the destination too, stops at the first byte past the end
    of the destination, whatever the two blocks hold. *)
Lemma copy_bytes_overrun dst src (m : nat) :
  dst <> src ->
  forall k s (bd bs : list cell),
    frame s !! dst = Some bd -> frame s !! src = Some bs ->
    0 <= k <= Z.of_nat (length bd) ->
    Z.of_nat (length bd) < k + Z.of_nat m ->
    (length bd < length bs)%nat ->
    copy_bytes m k dst src s =
    Fault (Overrun dst (Z.of_nat (length bd)) (Z.of_nat (length bd))).
Proof.
  intros Hne. induction m as [|m IH]; intros k s bd bs Hd Hs Hk Hm Hlen.
  - lia.
  - cbn [copy_bytes]. unfold bind at 1. unfold load_byte. rewrite Hs.
    destruct (Z.ltb_spec k 0); [lia|].
    destruct (Z.leb_spec (Z.of_nat (length bs)) k); [lia|].
    unfold bind at 1. unfold store_byte. cbn [frame trace]. rewrite Hd.
    destruct (Z.ltb_spec k 0); [lia|].
    destruct (Z.leb_spec (Z.of_nat (length bd)) k) as [Hend|Hin].
    + replace k with (Z.of_nat (length bd)) by lia. reflexivity.
    + match goal with
      | |- copy_bytes _ _ _ _ (mkState (<[dst := ?b]> _) _) = _ =>
          rewrite (IH (k + 1) _ b bs)
      end.
      * now rewrite length_insert.
      * cbn [frame]. apply lookup_insert_eq.
      * cbn [frame]. now rewrite lookup_insert_ne.
      * rewrite length_insert. lia.
      * rewrite length_insert. lia.
      * now rewrite length_insert.
Qed.

(** C3: [memcpy_bad1] copies [44] bytes into [int arr1[10]], which has
    [10 * 4 = 40] bytes: the length exceeds the size of the destination,
    the one execution stops at byte [40] of [arr1], the first past its
    end, and the bulk-operation rule reports the call. *)
Theorem memcpy_bad1_past_destination :
  10 * sizeof Tint = 40 /\
  10 * sizeof Tint < 44 /\
  fault_of memcpy_bad1 = Some (Overrun "arr1" 40 40) /\
  (forall s, memcpy "arr1" "arr2" 44
               (with_array Tint "arr2" 20 (with_array Tint "arr1" 10 s)) =
             Fault (Overrun "arr1" 40 40)) /\
  bulk_finding (exactly 44) (10 * sizeof Tint) = true.
Proof.
  split; [reflexivity|]. split; [reflexivity|].
  split; [vm_compute; reflexivity|]. split; [|reflexivity].
  intros s. unfold memcpy.
  change (Z.to_nat (to_size_t 44)) with 44%nat.
  erewrite (copy_bytes_overrun "arr1" "arr2" 44 ltac:(discriminate) 0 _
              (replicate 40 None) (replicate 80 None)).
  - reflexivity.
  - unfold with_array. cbn [frame]. rewrite lookup_insert_ne by discriminate.
    apply lookup_insert_eq.
  - unfold with_array. cbn [frame]. apply lookup_insert_eq.
  - rewrite length_replicate. lia.
  - rewrite length_replicate. lia.
  - rewrite !length_replicate. lia.
Qed.

(** C5: a copy or a fill of length zero returns at once in the state it
    started from, so it reads and writes no byte and every array is left
    as it was; [memcpy_good2] and [memset_good2] therefore run to the end
    with no access at all, and the bulk-operation rule reports neither. *)
Theorem bulk_zero_length_is_noop :
  (forall dst src s, memcpy dst src 0 s = Done (tt, s)) /\
  (forall dst c s, memset dst c 0 s = Done (tt, s)) /\
  run memcpy_good2 =
    run (declare Tint "arr1" 10 ;; declare Tint "arr2" 20) /\
  fault_of memcpy_good2 = None /\ events memcpy_good2 = Some [] /\
  final "arr2" memcpy_good2 = Some (replicate 80 None) /\
  run memset_good2 = run (declare Tint "arr" 10) /\
  fault_of memset_good2 = None /\ events memset_good2 = Some [] /\
  final "arr" memset_good2 = Some (replicate 40 None) /\
  (forall blk : list cell,
     bulk_finding (exactly 0) (Z.of_nat (length blk)) = false) /\
  bulk_finding (exactly 0) (20 * sizeof Tint) = false /\
  bulk_finding (exactly 0) (10 * sizeof Tint) = false.
Proof.
  repeat (split; [first [reflexivity | vm_compute; reflexivity]|]);
    try reflexivity.
  split; [|split; reflexivity].
  intros blk. unfold bulk_finding, exactly. cbn [lower upper].
  destruct (Z.ltb_spec (Z.of_nat (length blk)) 0); [lia|reflexivity].
Qed.

(** * Further properties of the three files *)

(** ** Shared facts *)

Lemma rem_int_defined a b :
  b <> 0 -> b <> -1 -> rem_int a b = Some (Z.rem a b).
Proof.
  intros H0 H1. unfold rem_int.
  destruct (Z.eqb_spec b 0); [contradiction|].
  destruct (Z.eqb_spec b (-1)); [contradiction|].
  now rewrite andb_false_r.
Qed.

(** The outcome of a store into an array that has just been declared, as
    one equation. *)
Lemma store_declared t a n i v s :
  store t a i v (with_array t a n s) =
  if i <? 0 then Fault (Underrun a i)
  else if Z.max 0 n <=? i then Fault (Overrun a i (Z.max 0 n))
  else Done (tt, mkState
               (<[a := write_at (Z.to_nat (i * sizeof t)) (encode t v)
                         (replicate (Z.to_nat (n * sizeof t)) None)]>
                  (frame (with_array t a n s)))
               (EvStore a (i * sizeof t) (sizeof t) :: trace s)).
Proof.
  unfold store, with_array. cbn [frame trace].
  now rewrite lookup_insert_eq, elems_declared.
Qed.

Ltac zcases :=
  repeat match goal with
         | |- context [?a <? ?b] => destruct (Z.ltb_spec a b)
         | |- context [?a <=? ?b] => destruct (Z.leb_spec a b)
         | |- context [?a =? ?b] => destruct (Z.eqb_spec a b)
         end.

Ltac int_bounds := unfold in_int, in_uint, in_ushort, in_size_t,
                     int_min, int_max, uint_max in *.

(** ** arith.c, the other functions *)

(** X1: under the guard [i >= 0] the remainder by [5] and by [-5] is an
    index of [char arr[5]]: [modulo_signed_Good] and
    [modulo_signed_neg_Good] never access out of bounds, and store exactly
    when [i] is not negative. *)
Theorem modulo_signed_guarded_safe i :
  in_int i ->
  fault_of (modulo_signed_Good i) = None /\
  events (modulo_signed_Good i) =
    Some (if 0 <=? i then [EvStore "arr" (Z.rem i 5) 1] else []) /\
  fault_of (modulo_signed_neg_Good i) = None /\
  events (modulo_signed_neg_Good i) =
    Some (if 0 <=? i then [EvStore "arr" (Z.rem i 5) 1] else []).
Proof.
  intros Hi.
  unfold fault_of, events, run, modulo_signed_Good, modulo_signed_neg_Good.
  rewrite !bind_declare.
  destruct (Z.leb_spec 0 i) as [Hpos|Hneg]; [|repeat split; reflexivity].
  rewrite !rem_int_defined, !bind_arith_Some by lia.
  change (-5) with (- (5)). rewrite Z.rem_opp_r by lia.
  rewrite store_declared.
  pose proof (Z.rem_bound_pos i 5 Hpos ltac:(lia)).
  zcases; try lia. cbn [trace initial sizeof].
  rewrite Z.mul_1_r. repeat split; reflexivity.
Qed.

Lemma modulo_signed_guarded_safe_witness :
  in_int 12 /\ fault_of (modulo_signed_Good 12) = None.
Proof.
  assert (H : in_int 12) by (int_bounds; lia).
  exact (conj H (proj1 (modulo_signed_guarded_safe 12 H))).
Defined.

(** X2: in [modulo_signed_neg_Bad] the remainder [i % -5] has the sign of
    [i], not of the divisor: the store is in bounds for every [i >= 0] and
    for every multiple of [5], and below [arr] for every other negative
    [i]. *)
Theorem modulo_signed_neg_Bad_fault i :
  in_int i ->
  modulo_signed i (-5) = Some (Z.rem i 5) /\
  fault_of (modulo_signed_neg_Bad i) =
    (if Z.rem i 5 <? 0 then Some (Underrun "arr" (Z.rem i 5)) else None) /\
  (0 <= i -> fault_of (modulo_signed_neg_Bad i) = None) /\
  (i < 0 -> Z.rem i 5 <> 0 ->
   fault_of (modulo_signed_neg_Bad i) = Some (Underrun "arr" (Z.rem i 5))).
Proof.
  intros Hi.
  assert (Hrem : rem_int i (-5) = Some (Z.rem i 5)).
  { rewrite rem_int_defined by lia.
    change (-5) with (- (5)). now rewrite Z.rem_opp_r by lia. }
  assert (Hf : fault_of (modulo_signed_neg_Bad i) =
               if Z.rem i 5 <? 0 then Some (Underrun "arr" (Z.rem i 5))
               else None).
  { unfold fault_of, run, modulo_signed_neg_Bad.
    rewrite bind_declare, Hrem, bind_arith_Some, store_declared.
    destruct (rem_sign_bound i 5 ltac:(lia)) as [Hpos Hneg].
    zcases; try reflexivity. destruct (Z.le_ge_cases 0 i); lia. }
  destruct (rem_sign_bound i 5 ltac:(lia)) as [Hpos Hneg].
  split; [exact Hrem|]. split; [exact Hf|]. rewrite Hf.
  split; intros; zcases; try reflexivity; lia.
Qed.

Lemma modulo_signed_neg_Bad_fault_witness :
  in_int (-7) /\
  fault_of (modulo_signed_neg_Bad (-7)) = Some (Underrun "arr" (Z.rem (-7) 5)).
Proof.
  assert (H : in_int (-7)) by (int_bounds; lia).
  split; [exact H|].
  apply (proj2 (proj2 (proj2 (modulo_signed_neg_Bad_fault (-7) H)))).
  - lia.
  - vm_compute. discriminate.
Defined.

(** X3: [modulo_signed_Good2] tests the remainder itself: it never
    accesses out of bounds, and it stores exactly when [i % 5] is not
    negative. *)
Theorem modulo_signed_Good2_safe i :
  in_int i ->
  fault_of (modulo_signed_Good2 i) = None /\
  events (modulo_signed_Good2 i) =
    Some (if 0 <=? Z.rem i 5 then [EvStore "arr" (Z.rem i 5) 1] else []).
Proof.
  intros Hi. unfold fault_of, events, run, modulo_signed_Good2.
  rewrite bind_declare, rem_int_pos, bind_arith_Some by lia.
  destruct (rem_sign_bound i 5 ltac:(lia)) as [Hpos Hneg].
  destruct (Z.leb_spec 0 (Z.rem i 5)) as [Hr|Hr]; [|split; reflexivity].
  rewrite store_declared.
  zcases; try (destruct (Z.le_ge_cases 0 i); lia).
  cbn [trace initial sizeof]. rewrite Z.mul_1_r. split; reflexivity.
Qed.

Lemma modulo_signed_Good2_safe_witness :
  in_int (-7) /\ fault_of (modulo_signed_Good2 (-7)) = None.
Proof.
  assert (H : in_int (-7)) by (int_bounds; lia).
  exact (conj H (proj1 (modulo_signed_Good2_safe (-7) H))).
Defined.

(** X4: a [uint16_t] is never negative after its promotion to [int], so
    [modulo_unsigned_short_Good] stores at [i % 5], in bounds, for every
    [i]. *)
Theorem modulo_unsigned_short_Good_safe i :
  in_ushort i ->
  fault_of (modulo_unsigned_short_Good i) = None /\
  events (modulo_unsigned_short_Good i) = Some [EvStore "arr" (Z.rem i 5) 1] /\
  in_bounds (Z.rem i 5) 5.
Proof.
  intros Hi. unfold fault_of, events, run, modulo_unsigned_short_Good.
  rewrite bind_declare, rem_int_pos, bind_arith_Some, store_declared by lia.
  pose proof (Z.rem_bound_pos i 5 ltac:(int_bounds; lia) ltac:(lia)).
  zcases; try lia. cbn [trace initial sizeof]. rewrite Z.mul_1_r.
  unfold in_bounds. repeat split; try reflexivity; lia.
Qed.

Lemma modulo_unsigned_short_Good_safe_witness :
  in_ushort 65535 /\ fault_of (modulo_unsigned_short_Good 65535) = None.
Proof.
  assert (H : in_ushort 65535) by (int_bounds; lia).
  exact (conj H (proj1 (modulo_unsigned_short_Good_safe 65535 H))).
Defined.

(** X5: in [modulo_signed_var_Bad_FN] the [int] [i] meets the
    [unsigned int] [len], so [i] is converted to [unsigned int] before the
    remainder is taken: for every [len > 0] the index is in [[0, len)] and
    the store is in bounds, for negative [i] too. *)
Theorem modulo_signed_var_in_bounds len i :
  in_uint len -> 0 < len -> in_int i ->
  in_bounds (wrap_uint i mod len) len /\
  fault_of (modulo_signed_var_Bad_FN len i) = None /\
  events (modulo_signed_var_Bad_FN len i) =
    Some [EvStore "arr" (wrap_uint i mod len) 1].
Proof.
  intros Hlen Hpos Hi.
  pose proof (Z.mod_pos_bound (wrap_uint i) len Hpos).
  unfold fault_of, events, run, modulo_signed_var_Bad_FN.
  rewrite bind_declare, rem_uint_pos, bind_arith_Some, store_declared by lia.
  zcases; try lia. cbn [trace initial sizeof]. rewrite Z.mul_1_r.
  unfold in_bounds. repeat split; try reflexivity; lia.
Qed.

Lemma modulo_signed_var_in_bounds_witness :
  in_uint 5 /\ 0 < 5 /\ in_int (-3) /\
  fault_of (modulo_signed_var_Bad_FN 5 (-3)) = None.
Proof.
  assert (Hlen : in_uint 5) by (int_bounds; lia).
  assert (Hpos : 0 < 5) by lia.
  assert (Hi : in_int (-3)) by (int_bounds; lia).
  exact (conj Hlen (conj Hpos (conj Hi
    (proj1 (proj2 (modulo_signed_var_in_bounds 5 (-3) Hlen Hpos Hi)))))).
Defined.

(** X6: [modulo_unsigned(a, b)] is below [b] for every [b > 0], so
    [modulo_call_Good], which indexes [char arr[len]] with
    [modulo_unsigned(i, len)], never accesses out of bounds; for
    [b = 0] the remainder has no value. *)
Theorem modulo_call_Good_safe len i :
  in_uint len -> in_uint i -> 0 < len ->
  modulo_unsigned i 0 = None /\
  (exists r, modulo_unsigned i len = Some r /\ in_bounds r len /\
     events (modulo_call_Good len i) = Some [EvStore "arr" r 1]) /\
  fault_of (modulo_call_Good len i) = None.
Proof.
  intros Hlen Hi Hpos.
  pose proof (Z.mod_pos_bound i len Hpos).
  split; [reflexivity|].
  unfold fault_of, events, run, modulo_call_Good, modulo_unsigned.
  rewrite bind_declare, rem_uint_pos, bind_arith_Some, store_declared by lia.
  zcases; try lia. cbn [trace initial sizeof]. rewrite Z.mul_1_r.
  split; [|reflexivity].
  exists (i mod len). unfold in_bounds. repeat split; try reflexivity; lia.
Qed.

Lemma modulo_call_Good_safe_witness :
  in_uint 7 /\ in_uint 30 /\ 0 < 7 /\ fault_of (modulo_call_Good 7 30) = None.
Proof.
  assert (Hlen : in_uint 7) by (int_bounds; lia).
  assert (Hi : in_uint 30) by (int_bounds; lia).
  assert (Hpos : 0 < 7) by lia.
  exact (conj Hlen (conj Hi (conj Hpos
    (proj2 (proj2 (modulo_call_Good_safe 7 30 Hlen Hi Hpos)))))).
Defined.

(** X7: [modulo_call_Bad_FN] passes [len] to the [int] parameter of
    [modulo_signed]: for [0 < len <= INT_MAX] the index has the sign of
    [i], so the store is in bounds when [i % len] is not negative and
    below [arr] otherwise, as for [i = -1] and [len >= 2]. *)
Theorem modulo_call_Bad_FN_fault len i :
  in_int i -> 0 < len <= int_max ->
  fault_of (modulo_call_Bad_FN len i) =
    (if Z.rem i len <? 0 then Some (Underrun "arr" (Z.rem i len)) else None) /\
  (0 <= i -> fault_of (modulo_call_Bad_FN len i) = None) /\
  (i = -1 -> 2 <= len ->
   fault_of (modulo_call_Bad_FN len i) = Some (Underrun "arr" (-1))).
Proof.
  intros Hi Hlen.
  assert (Hw : wrap_int len = len) by (apply wrap_int_id; int_bounds; lia).
  assert (Hf : fault_of (modulo_call_Bad_FN len i) =
               if Z.rem i len <? 0 then Some (Underrun "arr" (Z.rem i len))
               else None).
  { unfold fault_of, run, modulo_call_Bad_FN, modulo_signed.
    rewrite bind_declare, Hw, rem_int_pos, bind_arith_Some, store_declared
      by lia.
    destruct (rem_sign_bound i len ltac:(lia)) as [Hpos Hneg].
    zcases; try reflexivity. destruct (Z.le_ge_cases 0 i); lia. }
  destruct (rem_sign_bound i len ltac:(lia)) as [Hpos Hneg].
  split; [exact Hf|]. rewrite Hf. split.
  - intros H0. zcases; [lia|reflexivity].
  - intros -> H2.
    assert (Hr : Z.rem (-1) len = -1).
    { change (-1) with (- (1)). rewrite Z.rem_opp_l by lia.
      rewrite Z.rem_small by lia. reflexivity. }
    rewrite Hr. reflexivity.
Qed.

Lemma modulo_call_Bad_FN_fault_witness :
  in_int (-1) /\ 0 < 5 <= int_max /\
  fault_of (modulo_call_Bad_FN 5 (-1)) = Some (Underrun "arr" (-1)).
Proof.
  assert (Hi : in_int (-1)) by (int_bounds; lia).
  assert (Hlen : 0 < 5 <= int_max) by (int_bounds; lia).
  split; [exact Hi|]. split; [exact Hlen|].
  apply (proj2 (proj2 (modulo_call_Bad_FN_fault 5 (-1) Hi Hlen))).
  - reflexivity.
  - lia.
Defined.

(** X8: [division_of_zero_Good] always returns a value (neither division
    is by zero or overflows), and it returns [x] itself whenever [4 * x]
    is an [int] value; in particular [0] for [0]. *)
Theorem division_of_zero_Good_value :
  (forall x, in_int x ->
     exists v, division_of_zero_Good x = Some v /\ in_int v) /\
  (forall x, - 2 ^ 29 <= x < 2 ^ 29 -> division_of_zero_Good x = Some x) /\
  division_of_zero_Good 0 = Some 0.
Proof.
  assert (Hq : forall a, quot_int a 2 = Some (Z.quot a 2)).
  { intros a. unfold quot_int. cbn. now rewrite andb_false_r. }
  assert (Hhalf : forall a, in_int a -> in_int (Z.quot a 2)).
  { intros a Ha. int_bounds.
    pose proof (Z.quot_rem' a 2) as Hqr.
    destruct (Z.le_ge_cases 0 a) as [Hpos|Hneg].
    - pose proof (Z.rem_bound_pos a 2 Hpos ltac:(lia)). lia.
    - pose proof (proj2 (rem_sign_bound a 2 ltac:(lia)) ltac:(lia)). lia. }
  split; [|split; [|reflexivity]].
  - intros x _. unfold division_of_zero_Good. rewrite !Hq.
    eexists. split; [reflexivity|].
    apply Hhalf, Hhalf, wrap_int_range.
  - intros x Hx. unfold division_of_zero_Good, mul_int. rewrite !Hq.
    rewrite wrap_int_id by (int_bounds; lia).
    replace (4 * x) with (2 * x * 2) by lia.
    rewrite Z.quot_mul by lia. rewrite (Z.mul_comm 2 x).
    now rewrite Z.quot_mul by lia.
Qed.

Lemma division_of_zero_Good_value_witness :
  - 2 ^ 29 <= -21 < 2 ^ 29 /\ division_of_zero_Good (-21) = Some (-21).
Proof.
  assert (H : - 2 ^ 29 <= -21 < 2 ^ 29) by lia.
  exact (conj H (proj1 (proj2 division_of_zero_Good_value) (-21) H)).
Defined.

(** X9: whatever its argument, [plus_linear_min] returns a value between
    [0] and [19], so it is an index of an [int a[20]] for every argument;
    the two calls that the analysis reports by mistake,
    [plus_linear_min2_Good_FP] and [plus_linear_min3_Good_FP], complete
    without an access out of bounds. *)
Theorem plus_linear_min_range :
  (forall i, 0 <= plus_linear_min i <= 19) /\
  (forall i, fault_of (declare Tint "a" 20 ;;
                       store Tint "a" (plus_linear_min i) 1) = None) /\
  fault_of plus_linear_min2_Good_FP = None /\
  events plus_linear_min2_Good_FP = Some [EvStore "a" (9 * 4) 4] /\
  fault_of plus_linear_min3_Good_FP = None /\
  events plus_linear_min3_Good_FP = Some [EvStore "a" 0 4].
Proof.
  assert (Hr : forall i, 0 <= plus_linear_min i <= 19).
  { intros i. unfold plus_linear_min, add_int.
    destruct (Z.leb_spec 0 i); destruct (Z.ltb_spec i 10); cbn [andb];
      try lia.
    rewrite (wrap_int_id (i + 1)), wrap_int_id; int_bounds; lia. }
  split; [exact Hr|]. split.
  - intros i. specialize (Hr i). unfold fault_of, run.
    rewrite bind_declare, store_declared. zcases; try lia. reflexivity.
  - repeat split; vm_compute; reflexivity.
Qed.

(** ** issue_kinds.c, the other functions *)

(** X10: [l1_symbolic_overrun_Bad] and [l1_symbolic_underrun_Bad] guard
    their store with the very condition that makes it wrong: the first
    stops past the end of [int a[10]] exactly when [i >= 10], the second
    below it exactly when [i < 0], and neither ever stores in bounds. *)
Theorem l1_symbolic_only_bad_stores i :
  fault_of (l1_symbolic_overrun_Bad i) =
    (if 10 <=? i then Some (Overrun "a" i 10) else None) /\
  fault_of (l1_symbolic_underrun_Bad i) =
    (if i <? 0 then Some (Underrun "a" i) else None) /\
  (fault_of (l1_symbolic_overrun_Bad i) = None ->
   events (l1_symbolic_overrun_Bad i) = Some []) /\
  (fault_of (l1_symbolic_underrun_Bad i) = None ->
   events (l1_symbolic_underrun_Bad i) = Some []).
Proof.
  unfold fault_of, events, run, l1_symbolic_overrun_Bad,
    l1_symbolic_underrun_Bad.
  rewrite !bind_declare.
  destruct (Z.leb_spec 10 i); destruct (Z.ltb_spec i 0); try lia;
    rewrite ?store_declared; zcases; try lia;
    repeat split; intros; try reflexivity; try discriminate.
Qed.

Lemma l1_symbolic_only_bad_stores_witness :
  fault_of (l1_symbolic_overrun_Bad 3) = None /\
  events (l1_symbolic_overrun_Bad 3) = Some [].
Proof.
  assert (H : fault_of (l1_symbolic_overrun_Bad 3) = None) by reflexivity.
  exact (conj H (proj1 (proj2 (proj2 (l1_symbolic_only_bad_stores 3))) H)).
Defined.

(** X11: [l2_symbolic_overrun_Bad] stores at index [n] of an array of [n]
    elements, which is out of bounds whatever [n] is: one past the end for
    [n >= 0], below the array for [n < 0]. *)
Theorem l2_symbolic_overrun_Bad_always_faults n :
  ~ in_bounds n n /\
  fault_of (l2_symbolic_overrun_Bad n) =
    Some (if n <? 0 then Underrun "a" n else Overrun "a" n n).
Proof.
  split; [unfold in_bounds; lia|].
  unfold fault_of, run, l2_symbolic_overrun_Bad.
  rewrite bind_declare, store_declared.
  zcases; try lia; try reflexivity. now rewrite Z.max_r by lia.
Qed.

(** X12: a store at an unconstrained index into [int a[10]], the index
    being a parameter in [may_over_or_underrun_symbolic_Nowarn_Good] and
    the result of an unknown function in [l5_external_Warn_Bad], completes
    exactly when the index is in [[0, 10)], stops below the array for a
    negative index and past its end for an index of [10] or more. *)
Theorem unconstrained_index_fault n :
  fault_of (may_over_or_underrun_symbolic_Nowarn_Good n) =
    (if n <? 0 then Some (Underrun "a" n)
     else if 10 <=? n then Some (Overrun "a" n 10) else None) /\
  fault_of (l5_external_Warn_Bad n) =
    fault_of (may_over_or_underrun_symbolic_Nowarn_Good n) /\
  (fault_of (may_over_or_underrun_symbolic_Nowarn_Good n) = None <->
   in_bounds n 10).
Proof.
  assert (Hf : fault_of (may_over_or_underrun_symbolic_Nowarn_Good n) =
               if n <? 0 then Some (Underrun "a" n)
               else if 10 <=? n then Some (Overrun "a" n 10) else None).
  { unfold fault_of, run, may_over_or_underrun_symbolic_Nowarn_Good.
    rewrite bind_declare, store_declared. zcases; try lia; reflexivity. }
  split; [exact Hf|]. split; [reflexivity|]. rewrite Hf.
  unfold in_bounds. zcases; split; intros; try lia; try discriminate;
    reflexivity.
Qed.

Lemma unconstrained_index_fault_witness :
  in_bounds 3 10 /\
  fault_of (may_over_or_underrun_symbolic_Nowarn_Good 3) = None.
Proof.
  assert (H : in_bounds 3 10) by (unfold in_bounds; lia).
  exact (conj H (proj2 (proj2 (proj2 (unconstrained_index_fault 3))) H)).
Defined.

(** X13: [may_over_or_underrun_symbolic2_Nowarn_Good] stores at index [1]
    of an array of [n] elements: it completes exactly when [n >= 2] and
    stops past the end of the array otherwise, never below it. *)
Theorem fixed_index_symbolic_size_fault n :
  fault_of (may_over_or_underrun_symbolic2_Nowarn_Good n) =
    (if 2 <=? n then None else Some (Overrun "a" 1 (Z.max 0 n))) /\
  (fault_of (may_over_or_underrun_symbolic2_Nowarn_Good n) = None <->
   in_bounds 1 n).
Proof.
  assert (Hf : fault_of (may_over_or_underrun_symbolic2_Nowarn_Good n) =
               if 2 <=? n then None else Some (Overrun "a" 1 (Z.max 0 n))).
  { unfold fault_of, run, may_over_or_underrun_symbolic2_Nowarn_Good.
    rewrite bind_declare, store_declared. zcases; try lia; reflexivity. }
  split; [exact Hf|]. rewrite Hf.
  unfold in_bounds. zcases; split; intros; try lia; try discriminate;
    reflexivity.
Qed.

Lemma fixed_index_symbolic_size_fault_witness :
  in_bounds 1 2 /\
  fault_of (may_over_or_underrun_symbolic2_Nowarn_Good 2) = None.
Proof.
  assert (H : in_bounds 1 2) by (unfold in_bounds; lia).
  exact (conj H (proj2 (proj2 (fixed_index_symbolic_size_fault 2)) H)).
Defined.

(** X14: in [l1_unknown_function_Bad] the two tests leave [idx = 10] as
    the only index at which [int a[5]] is written: whatever the unknown
    function returns, the function either makes no access at all or stops
    past the end of [a]; it never stores in bounds. *)
Theorem l1_unknown_function_Bad_never_in_bounds u :
  (mul_int u 10 = 10 /\
   fault_of (l1_unknown_function_Bad u) = Some (Overrun "a" 10 5)) \/
  (mul_int u 10 <> 10 /\
   fault_of (l1_unknown_function_Bad u) = None /\
   events (l1_unknown_function_Bad u) = Some []).
Proof.
  unfold fault_of, events, run, l1_unknown_function_Bad.
  rewrite bind_declare. cbv zeta.
  destruct (Z.leb_spec 10 (mul_int u 10)) as [H1|H1];
    [destruct (Z.leb_spec (mul_int u 10) 10) as [H2|H2]|].
  - left. assert (Hidx : mul_int u 10 = 10) by lia.
    rewrite Hidx, store_declared. split; reflexivity.
  - right. repeat split; try reflexivity. lia.
  - right. repeat split; try reflexivity. lia.
Qed.

(** [less_than] is the comparison as a truth value. *)
Lemma less_than_test i n : negb (less_than i n =? 0) = (i <? n).
Proof. unfold less_than. destruct (i <? n); reflexivity. Qed.

(** X15: the loop of [l4_widened_overrun_Bad] runs [i] from [0] while
    [less_than(i, 11)]: after ten stores in bounds it stops past the end of
    [int a[10]] at index [10].  With the bound [10],
    [l4_widened_no_overrun_Good_FP] never faults, and once the loop has
    left ([i] is [10] then) it has made ten stores and every element of
    [a] is [0]. *)
Theorem l4_widened_loops :
  (forall fuel, fault_of (l4_widened_overrun_Bad (11 + fuel)) =
                Some (Overrun "a" 10 10)) /\
  (forall fuel, fault_of (l4_widened_no_overrun_Good_FP fuel) = None) /\
  (forall fuel, exists s,
     run (l4_widened_no_overrun_Good_FP (11 + fuel)) = Done (Some 10, s) /\
     trace s = map (fun i => EvStore "a" (4 * i) 4) [9; 8; 7; 6; 5; 4; 3; 2; 1; 0]) /\
  (forall fuel j, in_bounds j 10 ->
     final_elem Tint "a" j (l4_widened_no_overrun_Good_FP (11 + fuel)) =
     Some 0).
Proof.
  split; [|split; [|split]].
  - intros fuel. vm_compute. reflexivity.
  - intros fuel.
    do 11 (destruct fuel as [|fuel]; [vm_compute; reflexivity|]).
    vm_compute. reflexivity.
  - intros fuel. eexists. split; vm_compute; reflexivity.
  - intros fuel j [Hj0 Hj10].
    assert (Hj : j = 0 \/ j = 1 \/ j = 2 \/ j = 3 \/ j = 4 \/
                 j = 5 \/ j = 6 \/ j = 7 \/ j = 8 \/ j = 9) by lia.
    repeat (destruct Hj as [->|Hj]; [vm_compute; reflexivity|]).
    subst j. vm_compute. reflexivity.
Qed.

Lemma l4_widened_loops_witness :
  in_bounds 7 10 /\
  final_elem Tint "a" 7 (l4_widened_no_overrun_Good_FP (11 + 0)) = Some 0.
Proof.
  assert (H : in_bounds 7 10) by (unfold in_bounds; lia).
  exact (conj H (proj2 (proj2 (proj2 l4_widened_loops)) O 7 H)).
Defined.

(** X16: the loop of [s2_symbolic_widened_Good_FP] starts at [i = n] with
    the test [less_than(i, n)], which fails at once: for every [n] the
    function leaves the loop at its first test, with [i = n] and without
    any access to [a]. *)
Theorem s2_symbolic_widened_Good_FP_no_access fuel n :
  less_than n n = 0 /\
  exists s, run (s2_symbolic_widened_Good_FP (S fuel) n) = Done (Some n, s) /\
            trace s = [].
Proof.
  assert (Hlt : less_than n n = 0)
    by (unfold less_than; now rewrite Z.ltb_irrefl).
  split; [exact Hlt|].
  unfold run, s2_symbolic_widened_Good_FP. rewrite bind_declare.
  cbn [for_loop]. rewrite Hlt. cbn [Z.eqb negb].
  eexists. split; reflexivity.
Qed.

(** X17: the loop of [s2_symbolic_widened_Bad] starts at [i = n] with the
    test [less_than(i, 2 * n)]: for every [n > 0] (with [2 * n] an [int]
    value) its first store is at index [n] of an array of [n] elements,
    one past the end; for [n <= 0] the test fails at once and nothing is
    accessed. *)
Theorem s2_symbolic_widened_Bad_fault fuel n :
  - 2 ^ 30 <= n < 2 ^ 30 ->
  (0 < n ->
   fault_of (s2_symbolic_widened_Bad (S fuel) n) = Some (Overrun "a" n n)) /\
  (n <= 0 ->
   exists s, run (s2_symbolic_widened_Bad (S fuel) n) = Done (Some n, s) /\
             trace s = []).
Proof.
  intros Hn.
  assert (H2n : mul_int 2 n = 2 * n)
    by (unfold mul_int; apply wrap_int_id; int_bounds; lia).
  split; intros Hsign.
  - unfold fault_of, run, s2_symbolic_widened_Bad. rewrite bind_declare.
    cbn [for_loop]. rewrite less_than_test, H2n.
    destruct (Z.ltb_spec n (2 * n)); [|lia].
    unfold bind at 1. unfold bind at 1. rewrite store_declared.
    zcases; try lia. now rewrite Z.max_r by lia.
  - unfold run, s2_symbolic_widened_Bad. rewrite bind_declare.
    cbn [for_loop]. rewrite less_than_test, H2n.
    destruct (Z.ltb_spec n (2 * n)); [lia|].
    eexists. split; reflexivity.
Qed.

Lemma s2_symbolic_widened_Bad_fault_witness :
  - 2 ^ 30 <= 3 < 2 ^ 30 /\ 0 < 3 /\
  fault_of (s2_symbolic_widened_Bad 1 3) = Some (Overrun "a" 3 3).
Proof.
  assert (Hn : - 2 ^ 30 <= 3 < 2 ^ 30) by lia.
  assert (Hpos : 0 < 3) by lia.
  exact (conj Hn (conj Hpos
    (proj1 (s2_symbolic_widened_Bad_fault O 3 Hn) Hpos))).
Defined.

(** ** models.c, the other functions *)

(** *** The bulk operations on two distinct blocks *)

(** A copy that fits both blocks completes: the destination holds the
    copied bytes of the source between the bytes it had before and after
    them, no other block changes, and each byte costs a load and a store. *)
Lemma copy_bytes_ok dst src (m : nat) :
  dst <> src ->
  forall (k : nat) s (bd bs : list cell),
    frame s !! dst = Some bd -> frame s !! src = Some bs ->
    (k + m <= length bd)%nat -> (k + m <= length bs)%nat ->
    exists s',
      copy_bytes m (Z.of_nat k) dst src s = Done (tt, s') /\
      frame s' =
        <[dst := take k bd ++ take m (drop k bs) ++ drop (k + m) bd]>
          (frame s) /\
      length (trace s') = (2 * m + length (trace s))%nat.
Proof.
  intros Hne. induction m as [|m IH]; intros k s bd bs Hd Hs Hld Hls.
  - exists s. split; [reflexivity|]. split; [|reflexivity].
    rewrite Nat.add_0_r, take_0. cbn [app]. rewrite take_drop.
    symmetry. now apply insert_id.
  - destruct (lookup_lt_is_Some_2 bs k ltac:(lia)) as [c Hc].
    cbn [copy_bytes]. unfold bind at 1. unfold load_byte. rewrite Hs.
    destruct (Z.ltb_spec (Z.of_nat k) 0); [lia|].
    destruct (Z.leb_spec (Z.of_nat (length bs)) (Z.of_nat k)); [lia|].
    unfold bind at 1. unfold store_byte. cbn [frame trace]. rewrite Hd.
    destruct (Z.ltb_spec (Z.of_nat k) 0); [lia|].
    destruct (Z.leb_spec (Z.of_nat (length bd)) (Z.of_nat k)); [lia|].
    unfold cell in *. rewrite Nat2Z.id, Hc. cbn [default].
    replace (Z.of_nat k + 1) with (Z.of_nat (S k)) by lia.
    edestruct (IH (S k)) as (s' & Hrun & Hframe & Htrace);
      [| |rewrite length_insert| |exists s'; split; [exact Hrun|]].
    + cbn [frame]. apply lookup_insert_eq.
    + cbn [frame]. rewrite lookup_insert_ne by exact Hne. exact Hs.
    + lia.
    + lia.
    + split.
      * rewrite Hframe. cbn [frame]. rewrite insert_insert_eq. f_equal.
        rewrite (take_S_r _ k c)
          by (apply list_lookup_insert_eq; lia).
        rewrite take_insert_ge by lia. rewrite drop_insert_lt by lia.
        rewrite (drop_S bs c k Hc), firstn_cons.
        rewrite <- app_assoc. cbn [app].
        now replace (S k + m)%nat with (k + S m)%nat by lia.
      * rewrite Htrace. cbn [trace length]. lia.
Qed.

(** A copy that is longer than the source, into a destination that is at
    least as long as the source, stops at the first byte past the end of
    the source. *)
Lemma copy_bytes_src_overrun dst src (m : nat) :
  dst <> src ->
  forall k s (bd bs : list cell),
    frame s !! dst = Some bd -> frame s !! src = Some bs ->
    0 <= k <= Z.of_nat (length bs) ->
    Z.of_nat (length bs) < k + Z.of_nat m ->
    (length bs <= length bd)%nat ->
    copy_bytes m k dst src s =
    Fault (Overrun src (Z.of_nat (length bs)) (Z.of_nat (length bs))).
Proof.
  intros Hne. induction m as [|m IH]; intros k s bd bs Hd Hs Hk Hm Hlen.
  - lia.
  - cbn [copy_bytes]. unfold bind at 1. unfold load_byte. rewrite Hs.
    destruct (Z.ltb_spec k 0); [lia|].
    destruct (Z.leb_spec (Z.of_nat (length bs)) k) as [Hend|Hin].
    + replace k with (Z.of_nat (length bs)) by lia. reflexivity.
    + unfold bind at 1. unfold store_byte. cbn [frame trace]. rewrite Hd.
      destruct (Z.ltb_spec k 0); [lia|].
      destruct (Z.leb_spec (Z.of_nat (length bd)) k); [lia|].
      match goal with
      | |- copy_bytes _ _ _ _ (mkState (<[dst := ?b]> _) _) = _ =>
          rewrite (IH (k + 1) _ b bs)
      end.
      * reflexivity.
      * cbn [frame]. apply lookup_insert_eq.
      * cbn [frame]. now rewrite lookup_insert_ne.
      * lia.
      * lia.
      * now rewrite length_insert.
Qed.

(** A fill that fits the block completes: the filled bytes stand between
    the bytes the block had before and after them. *)
Lemma fill_bytes_ok dst c (m : nat) :
  forall (k : nat) s (bd : list cell),
    frame s !! dst = Some bd -> (k + m <= length bd)%nat ->
    exists s',
      fill_bytes m (Z.of_nat k) dst c s = Done (tt, s') /\
      frame s' =
        <[dst := take k bd ++ replicate m (Some c) ++ drop (k + m) bd]>
          (frame s) /\
      length (trace s') = (m + length (trace s))%nat.
Proof.
  induction m as [|m IH]; intros k s bd Hd Hld.
  - exists s. split; [reflexivity|]. split; [|reflexivity].
    rewrite Nat.add_0_r. cbn [replicate app]. rewrite take_drop.
    symmetry. now apply insert_id.
  - cbn [fill_bytes]. unfold bind at 1. unfold store_byte. rewrite Hd.
    destruct (Z.ltb_spec (Z.of_nat k) 0); [lia|].
    destruct (Z.leb_spec (Z.of_nat (length bd)) (Z.of_nat k)); [lia|].
    unfold cell in *. rewrite Nat2Z.id.
    replace (Z.of_nat k + 1) with (Z.of_nat (S k)) by lia.
    edestruct (IH (S k)) as (s' & Hrun & Hframe & Htrace);
      [|rewrite length_insert|exists s'; split; [exact Hrun|]].
    + cbn [frame]. apply lookup_insert_eq.
    + lia.
    + split.
      * rewrite Hframe. cbn [frame]. rewrite insert_insert_eq. f_equal.
        rewrite (take_S_r _ k (Some c))
          by (apply list_lookup_insert_eq; lia).
        rewrite take_insert_ge by lia. rewrite drop_insert_lt by lia.
        cbn [replicate]. rewrite <- app_assoc. cbn [app].
        now replace (S k + m)%nat with (k + S m)%nat by lia.
      * rewrite Htrace. cbn [trace length]. lia.
Qed.

(** A fill that is longer than the block stops at the first byte past its
    end. *)
Lemma fill_bytes_overrun dst c (m : nat) :
  forall k s (bd : list cell),
    frame s !! dst = Some bd ->
    0 <= k <= Z.of_nat (length bd) ->
    Z.of_nat (length bd) < k + Z.of_nat m ->
    fill_bytes m k dst c s =
    Fault (Overrun dst (Z.of_nat (length bd)) (Z.of_nat (length bd))).
Proof.
  induction m as [|m IH]; intros k s bd Hd Hk Hm.
  - lia.
  - cbn [fill_bytes]. unfold bind at 1. unfold store_byte. rewrite Hd.
    destruct (Z.ltb_spec k 0); [lia|].
    destruct (Z.leb_spec (Z.of_nat (length bd)) k) as [Hend|Hin].
    + replace k with (Z.of_nat (length bd)) by lia. reflexivity.
    + match goal with
      | |- fill_bytes _ _ _ _ (mkState (<[dst := ?b]> _) _) = _ =>
          rewrite (IH (k + 1) _ b)
      end.
      * now rewrite length_insert.
      * cbn [frame]. apply lookup_insert_eq.
      * rewrite length_insert. lia.
      * rewrite length_insert. lia.
Qed.

Lemma to_size_t_range n : 0 <= to_size_t n < 2 ^ 64.
Proof. unfold to_size_t. apply Z.mod_pos_bound. lia. Qed.

Lemma to_size_t_id n : in_size_t n -> to_size_t n = n.
Proof. unfold in_size_t, to_size_t. intros H. apply Z.mod_small. lia. Qed.

(** A negative [int] length becomes a length of more than [2^63]. *)
Lemma to_size_t_negative n : - 2 ^ 64 <= n < 0 -> to_size_t n = n + 2 ^ 64.
Proof.
  intros H. unfold to_size_t.
  rewrite <- (Z.mod_add n 1 (2 ^ 64)) by lia. apply Z.mod_small. lia.
Qed.

Section Bulk.

Variables (dst src : string) (n : Z) (s : state) (bd bs : list cell).
Hypothesis Hne : dst <> src.
Hypothesis Hdst : frame s !! dst = Some bd.
Hypothesis Hsrc : frame s !! src = Some bs.

Lemma memcpy_fits :
  to_size_t n <= Z.of_nat (length bd) ->
  to_size_t n <= Z.of_nat (length bs) ->
  exists s',
    memcpy dst src n s = Done (tt, s') /\
    frame s' =
      <[dst := take (Z.to_nat (to_size_t n)) bs ++
               drop (Z.to_nat (to_size_t n)) bd]> (frame s) /\
    length (trace s') =
      (2 * Z.to_nat (to_size_t n) + length (trace s))%nat.
Proof.
  intros Hd Hs. pose proof (to_size_t_range n) as Hn.
  destruct (copy_bytes_ok dst src (Z.to_nat (to_size_t n)) Hne 0%nat s bd bs
              Hdst Hsrc ltac:(lia) ltac:(lia)) as (s' & Hrun & Hframe & Htrace).
  exists s'. split; [exact Hrun|]. split; [|exact Htrace].
  rewrite Hframe. now rewrite take_0, drop_0.
Qed.

Lemma memcpy_past_source :
  Z.of_nat (length bs) < to_size_t n ->
  (length bs <= length bd)%nat ->
  memcpy dst src n s =
  Fault (Overrun src (Z.of_nat (length bs)) (Z.of_nat (length bs))).
Proof.
  intros Hs Hlen. unfold memcpy.
  apply (copy_bytes_src_overrun dst src _ Hne 0 s bd bs Hdst Hsrc);
    [lia| |exact Hlen].
  rewrite Z2Nat.id by lia. lia.
Qed.

Lemma memcpy_past_destination :
  Z.of_nat (length bd) < to_size_t n ->
  (length bd < length bs)%nat ->
  memcpy dst src n s =
  Fault (Overrun dst (Z.of_nat (length bd)) (Z.of_nat (length bd))).
Proof.
  intros Hd Hlen. unfold memcpy.
  apply (copy_bytes_overrun dst src _ Hne 0 s bd bs Hdst Hsrc);
    [lia| |exact Hlen].
  rewrite Z2Nat.id by lia. lia.
Qed.

Lemma memset_fits c :
  to_size_t n <= Z.of_nat (length bd) ->
  exists s',
    memset dst c n s = Done (tt, s') /\
    frame s' =
      <[dst := replicate (Z.to_nat (to_size_t n)) (Some (c mod 256)) ++
               drop (Z.to_nat (to_size_t n)) bd]> (frame s) /\
    length (trace s') = (Z.to_nat (to_size_t n) + length (trace s))%nat.
Proof.
  intros Hd. pose proof (to_size_t_range n) as Hn.
  destruct (fill_bytes_ok dst (c mod 256) (Z.to_nat (to_size_t n)) 0%nat s bd
              Hdst ltac:(lia)) as (s' & Hrun & Hframe & Htrace).
  exists s'. split; [exact Hrun|]. split; [|exact Htrace].
  rewrite Hframe. now rewrite take_0.
Qed.

Lemma memset_past_end c :
  Z.of_nat (length bd) < to_size_t n ->
  memset dst c n s =
  Fault (Overrun dst (Z.of_nat (length bd)) (Z.of_nat (length bd))).
Proof.
  intros Hd. unfold memset.
  apply (fill_bytes_overrun dst _ _ 0 s bd Hdst); [lia|].
  rewrite Z2Nat.id by lia. lia.
Qed.

End Bulk.

Ltac frame_lookup :=
  unfold with_array; cbn [frame];
  repeat first [ apply lookup_insert_eq
               | rewrite lookup_insert_ne by discriminate ].

(** X18: [fgetc] returns a byte value or [-1].  With that,
    [fgetc_m1_bad] stops exactly at the end-of-file value, below
    [int arr[10000]]; [fgetc_255_bad] and [fgetc_256_bad] stop exactly at
    the byte [255], one past the end of their arrays; every other value is
    stored in bounds. *)
Theorem fgetc_bad_faults c :
  -1 <= c <= 255 ->
  fault_of (fgetc_m1_bad c) =
    (if c =? -1 then Some (Underrun "arr" (-1)) else None) /\
  fault_of (fgetc_255_bad c) =
    (if c =? 255 then Some (Overrun "arr" 255 255) else None) /\
  fault_of (fgetc_256_bad c) =
    (if c =? 255 then Some (Overrun "arr" 256 256) else None).
Proof.
  intros Hc.
  assert (Hadd : add_int c 1 = c + 1)
    by (unfold add_int; apply wrap_int_id; int_bounds; lia).
  unfold fault_of, run, fgetc_m1_bad, fgetc_255_bad, fgetc_256_bad.
  rewrite !bind_declare, Hadd.
  split; [|split].
  - rewrite store_declared. zcases; try lia; subst; reflexivity.
  - destruct (Z.leb_spec 0 c).
    + rewrite store_declared. zcases; try lia; subst; reflexivity.
    + zcases; try lia. reflexivity.
  - rewrite store_declared. zcases; try lia; try reflexivity.
    subst c. reflexivity.
Qed.

Lemma fgetc_bad_faults_witness :
  -1 <= 255 <= 255 /\
  fault_of (fgetc_255_bad 255) =
    (if 255 =? 255 then Some (Overrun "arr" 255 255) else None).
Proof.
  assert (H : -1 <= 255 <= 255) by lia.
  exact (conj H (proj1 (proj2 (fgetc_bad_faults 255 H)))).
Defined.

(** X19: with one more element than their [_bad] twins,
    [fgetc_256_good] and [fgetc_257_good] store in bounds for every value
    that [fgetc] can return: the first skips the store at end of file, the
    second stores at [c + 1], which is [0] then. *)
Theorem fgetc_good_safe c :
  -1 <= c <= 255 ->
  fault_of (fgetc_256_good c) = None /\
  events (fgetc_256_good c) =
    Some (if 0 <=? c then [EvStore "arr" (c * 4) 4] else []) /\
  fault_of (fgetc_257_good c) = None /\
  events (fgetc_257_good c) = Some [EvStore "arr" ((c + 1) * 4) 4].
Proof.
  intros Hc.
  assert (Hadd : add_int c 1 = c + 1)
    by (unfold add_int; apply wrap_int_id; int_bounds; lia).
  unfold fault_of, events, run, fgetc_256_good, fgetc_257_good.
  rewrite !bind_declare, Hadd.
  assert (H257 : store Tint "arr" (c + 1) 42
                   (with_array Tint "arr" 257 initial) =
                 Done (tt, mkState
                   (<[ "arr" := write_at (Z.to_nat ((c + 1) * sizeof Tint))
                                  (encode Tint 42)
                                  (replicate (Z.to_nat (257 * sizeof Tint)) None)]>
                      (frame (with_array Tint "arr" 257 initial)))
                   [EvStore "arr" ((c + 1) * 4) 4])).
  { rewrite store_declared. zcases; try lia. reflexivity. }
  rewrite H257.
  destruct (Z.leb_spec 0 c); [|repeat split; reflexivity].
  rewrite store_declared. zcases; try lia. repeat split; reflexivity.
Qed.

Lemma fgetc_good_safe_witness :
  -1 <= -1 <= 255 /\ fault_of (fgetc_257_good (-1)) = None.
Proof.
  assert (H : -1 <= -1 <= 255) by lia.
  exact (conj H (proj1 (proj2 (proj2 (fgetc_good_safe (-1) H))))).
Defined.

(** X20: the copies from [int arr1[10]] into [int arr2[20]] differ in their
    length only.  Whatever the length argument, such a copy completes
    exactly when the length, as a [size_t], is at most the [40] bytes of
    the source, and stops at byte [40] of the source otherwise:
    [memcpy_good1] and [memcpy_good3] complete, [memcpy_bad2] reads past
    the end of [arr1]. *)
Theorem memcpy_from_arr1 :
  (forall n,
     fault_of (declare Tint "arr1" 10 ;; declare Tint "arr2" 20 ;;
               memcpy "arr2" "arr1" n) =
     if to_size_t n <=? 40 then None else Some (Overrun "arr1" 40 40)) /\
  fault_of memcpy_good1 = None /\
  fault_of memcpy_good3 = None /\
  fault_of memcpy_bad2 = Some (Overrun "arr1" 40 40).
Proof.
  assert (H : forall n,
     fault_of (declare Tint "arr1" 10 ;; declare Tint "arr2" 20 ;;
               memcpy "arr2" "arr1" n) =
     if to_size_t n <=? 40 then None else Some (Overrun "arr1" 40 40)).
  { intros n. unfold fault_of, run. rewrite !bind_declare.
    destruct (Z.leb_spec (to_size_t n) 40) as [Hfit|Hlong].
    - edestruct (memcpy_fits "arr2" "arr1" n
                   (with_array Tint "arr2" 20 (with_array Tint "arr1" 10 initial)))
        as (s' & -> & _);
        [discriminate|frame_lookup|frame_lookup| | |reflexivity];
        rewrite length_replicate; cbn [sizeof]; lia.
    - erewrite (memcpy_past_source "arr2" "arr1" n
                  (with_array Tint "arr2" 20 (with_array Tint "arr1" 10 initial)));
        [|discriminate|frame_lookup|frame_lookup| |];
        rewrite ?length_replicate; cbn [sizeof]; try lia.
      reflexivity. }
  split; [exact H|].
  unfold memcpy_good1, memcpy_good3, memcpy_bad2. rewrite !H.
  repeat split; reflexivity.
Qed.

(** X21: the copies from [int arr2[20]] into [int arr1[10]]: such a copy
    completes exactly when the length, as a [size_t], is at most the [40]
    bytes of the destination and stops at byte [40] of the destination
    otherwise.  The length [-1] of [memcpy_bad3] is [2^64 - 1] as a
    [size_t], so [memcpy_bad3] writes past the end of [arr1], and so does
    every negative [int] length. *)
Theorem memcpy_into_arr1 :
  (forall n,
     fault_of (declare Tint "arr1" 10 ;; declare Tint "arr2" 20 ;;
               memcpy "arr1" "arr2" n) =
     if to_size_t n <=? 40 then None else Some (Overrun "arr1" 40 40)) /\
  to_size_t (-1) = 2 ^ 64 - 1 /\
  fault_of memcpy_bad3 = Some (Overrun "arr1" 40 40) /\
  (forall n, in_int n -> n < 0 ->
     fault_of (declare Tint "arr1" 10 ;; declare Tint "arr2" 20 ;;
               memcpy "arr1" "arr2" n) = Some (Overrun "arr1" 40 40)).
Proof.
  assert (H : forall n,
     fault_of (declare Tint "arr1" 10 ;; declare Tint "arr2" 20 ;;
               memcpy "arr1" "arr2" n) =
     if to_size_t n <=? 40 then None else Some (Overrun "arr1" 40 40)).
  { intros n. unfold fault_of, run. rewrite !bind_declare.
    destruct (Z.leb_spec (to_size_t n) 40) as [Hfit|Hlong].
    - edestruct (memcpy_fits "arr1" "arr2" n
                   (with_array Tint "arr2" 20 (with_array Tint "arr1" 10 initial)))
        as (s' & -> & _);
        [discriminate|frame_lookup|frame_lookup| | |reflexivity];
        rewrite length_replicate; cbn [sizeof]; lia.
    - erewrite (memcpy_past_destination "arr1" "arr2" n
                  (with_array Tint "arr2" 20 (with_array Tint "arr1" 10 initial)));
        [|discriminate|frame_lookup|frame_lookup| |];
        rewrite ?length_replicate; cbn [sizeof]; try lia.
      reflexivity. }
  split; [exact H|]. split; [reflexivity|]. split.
  - unfold memcpy_bad3. rewrite H. reflexivity.
  - intros n Hn Hneg. rewrite H, to_size_t_negative by (int_bounds; lia).
    destruct (Z.leb_spec (n + 2 ^ 64) 40); [int_bounds; lia|reflexivity].
Qed.

Lemma memcpy_into_arr1_witness :
  in_int (-8) /\ -8 < 0 /\
  fault_of (declare Tint "arr1" 10 ;; declare Tint "arr2" 20 ;;
            memcpy "arr1" "arr2" (-8)) = Some (Overrun "arr1" 40 40).
Proof.
  assert (H : in_int (-8)) by (int_bounds; lia).
  assert (H' : -8 < 0) by lia.
  exact (conj H (conj H'
    (proj2 (proj2 (proj2 memcpy_into_arr1)) (-8) H H'))).
Defined.

(** X22: the fills of [int arr[10]] differ in their length only.  Whatever
    the length argument, such a fill completes exactly when the length, as
    a [size_t], is at most the [40] bytes of the array and stops at byte
    [40] otherwise: [memset_good1], [memset_good3] and [memset_good4]
    complete, [memset_bad1] (length [44]) and [memset_bad2] (length [-1],
    which is [2^64 - 1]) write past the end. *)
Theorem memset_arr :
  (forall c n,
     fault_of (declare Tint "arr" 10 ;; memset "arr" c n) =
     if to_size_t n <=? 40 then None else Some (Overrun "arr" 40 40)) /\
  fault_of memset_good1 = None /\
  fault_of memset_good3 = None /\
  fault_of memset_good4 = None /\
  fault_of memset_bad1 = Some (Overrun "arr" 40 40) /\
  fault_of memset_bad2 = Some (Overrun "arr" 40 40).
Proof.
  assert (H : forall c n,
     fault_of (declare Tint "arr" 10 ;; memset "arr" c n) =
     if to_size_t n <=? 40 then None else Some (Overrun "arr" 40 40)).
  { intros c n. unfold fault_of, run. rewrite !bind_declare.
    destruct (Z.leb_spec (to_size_t n) 40) as [Hfit|Hlong].
    - edestruct (memset_fits "arr" n (with_array Tint "arr" 10 initial)) as (s' & -> & _);
        [frame_lookup| |reflexivity].
      rewrite length_replicate; cbn [sizeof]; lia.
    - erewrite (memset_past_end "arr" n (with_array Tint "arr" 10 initial)); [|frame_lookup|];
        rewrite ?length_replicate; cbn [sizeof]; try lia.
      reflexivity. }
  split; [exact H|].
  unfold memset_good1, memset_good3, memset_good4, memset_bad1, memset_bad2.
  rewrite !H. repeat split; reflexivity.
Qed.

(** X23: what the fills leave in the array.  After [memset_good1] and
    [memset_good4] every element of [int arr[10]] reads as [0]; after
    [memset_good3], which fills [20] bytes, the first five elements read
    as [0] and the last five are still indeterminate. *)
Theorem memset_contents j :
  in_bounds j 10 ->
  final_elem Tint "arr" j memset_good1 = Some 0 /\
  final_elem Tint "arr" j memset_good4 = Some 0 /\
  final_elem Tint "arr" j memset_good3 = (if j <? 5 then Some 0 else None).
Proof.
  intros [Hj0 Hj10].
  assert (Hj : j = 0 \/ j = 1 \/ j = 2 \/ j = 3 \/ j = 4 \/
               j = 5 \/ j = 6 \/ j = 7 \/ j = 8 \/ j = 9) by lia.
  repeat (destruct Hj as [->|Hj]; [repeat split; vm_compute; reflexivity|]).
  subst j. repeat split; vm_compute; reflexivity.
Qed.

Lemma memset_contents_witness :
  in_bounds 6 10 /\ final_elem Tint "arr" 6 memset_good4 = Some 0.
Proof.
  assert (H : in_bounds 6 10) by (unfold in_bounds; lia).
  exact (conj H (proj1 (proj2 (memset_contents 6 H)))).
Defined.

(** X24: [memcpy_len_Good] copies [len] bytes between two arrays of [len]
    bytes: for every [size_t] [len] it completes, with one load and one
    store for each byte, and so do its caller [call_memcpy_len1_Good] and
    [memcpy_good4], which copies [sizeof(dst)] bytes between two arrays of
    three [int]s. *)
Theorem memcpy_len_Good_safe len :
  in_size_t len ->
  fault_of (memcpy_len_Good len) = None /\
  (exists es, events (memcpy_len_Good len) = Some es /\
              Z.of_nat (length es) = 2 * len) /\
  fault_of call_memcpy_len1_Good = None /\
  fault_of memcpy_good4 = None.
Proof.
  intros Hlen. pose proof (to_size_t_id len Hlen) as Hid.
  assert (Hgen : forall l, in_size_t l ->
            exists s', run (memcpy_len_Good l) = Done (tt, s') /\
                       Z.of_nat (length (trace s')) = 2 * l).
  { intros l Hl. pose proof (to_size_t_id l Hl) as Hl'.
    unfold run, memcpy_len_Good. rewrite !bind_declare.
    edestruct (memcpy_fits "dst" "src" l
                 (with_array Tchar "src" l (with_array Tchar "dst" l initial)))
      as (s' & Hrun & _ & Htrace);
      [discriminate|frame_lookup|frame_lookup| | |].
    - rewrite length_replicate. cbn [sizeof]. unfold in_size_t in Hl. lia.
    - rewrite length_replicate. cbn [sizeof]. unfold in_size_t in Hl. lia.
    - exists s'. split; [exact Hrun|]. rewrite Htrace, Hl'.
      cbn [with_array trace initial length]. unfold in_size_t in Hl. lia. }
  destruct (Hgen len Hlen) as (s' & Hrun & Htrace).
  assert (H40 : in_size_t 40) by (unfold in_size_t; lia).
  destruct (Hgen 40 H40) as (s40 & Hrun40 & _).
  unfold fault_of, events, call_memcpy_len1_Good. rewrite Hrun, Hrun40.
  split; [reflexivity|]. split; [|split; [reflexivity|vm_compute; reflexivity]].
  exists (trace s'). split; [reflexivity|exact Htrace].
Qed.

Lemma memcpy_len_Good_safe_witness :
  in_size_t 3 /\ fault_of (memcpy_len_Good 3) = None.
Proof.
  assert (H : in_size_t 3) by (unfold in_size_t; lia).
  exact (conj H (proj1 (memcpy_len_Good_safe 3 H))).
Defined.

(** X25: [memcpy_contents_Good] and [memcpy_contents_Bad] copy the three
    elements of [src], all [5], into [dst] and use [dst[0]] as an index:
    after the copy every element of [dst] reads as [5], so the store is at
    index [5], in bounds of [int a[6]] and one past the end of
    [int a[5]].  [memcpy_integer_Good] and [memcpy_integer_Bad] do the same
    with a single [int]: index [5] of [int a[10]] and of [int a[5]]. *)
Theorem memcpy_contents_index :
  final_elem Tint "dst" 0
    (declare_init Tint "src" [5; 5; 5] ;; declare Tint "dst" 3 ;;
     memcpy "dst" "src" (3 * sizeof Tint)) = Some 5 /\
  final "dst" memcpy_contents_Good = Some (concat (map (encode Tint) [5; 5; 5])) /\
  fault_of memcpy_contents_Good = None /\
  (exists es, events memcpy_contents_Good = Some (EvStore "a" (5 * 4) 4 :: es)) /\
  fault_of memcpy_contents_Bad = Some (Overrun "a" 5 5) /\
  fault_of memcpy_integer_Good = None /\
  fault_of memcpy_integer_Bad = Some (Overrun "a" 5 5).
Proof.
  split; [vm_compute; reflexivity|]. split; [vm_compute; reflexivity|].
  split; [vm_compute; reflexivity|].
  split; [eexists; vm_compute; reflexivity|].
  repeat split; vm_compute; reflexivity.
Qed.

(** X26: [memcpy_bad4] and [memset_bad3] pass [sizeof(dst)] where [dst]
    is a pointer to a one-element [int] array: the length is the [8] bytes
    of a pointer, the array has [4], and the operation stops at byte [4],
    the first past the end (of the source for the copy, which reads before
    it writes).  With any length up to [4] both complete. *)
Theorem pointer_size_as_length :
  sizeof_ptr = 2 * (1 * sizeof Tint) /\
  fault_of memcpy_bad4 = Some (Overrun "src" 4 4) /\
  fault_of memset_bad3 = Some (Overrun "arr" 4 4) /\
  (forall n, in_size_t n ->
     fault_of (declare Tint "src" 1 ;; declare Tint "buff" 1 ;;
               memcpy "buff" "src" n) =
     if n <=? 4 then None else Some (Overrun "src" 4 4)) /\
  (forall n, in_size_t n ->
     fault_of (declare Tint "arr" 1 ;; memset "arr" 0 n) =
     if n <=? 4 then None else Some (Overrun "arr" 4 4)).
Proof.
  split; [reflexivity|]. split; [vm_compute; reflexivity|].
  split; [vm_compute; reflexivity|]. split.
  - intros n Hn. pose proof (to_size_t_id n Hn) as Hid.
    unfold fault_of, run. rewrite !bind_declare.
    destruct (Z.leb_spec n 4) as [Hfit|Hlong].
    + edestruct (memcpy_fits "buff" "src" n
                   (with_array Tint "buff" 1 (with_array Tint "src" 1 initial)))
        as (s' & -> & _);
        [discriminate|frame_lookup|frame_lookup| | |reflexivity];
        rewrite length_replicate; cbn [sizeof]; lia.
    + erewrite (memcpy_past_source "buff" "src" n
                  (with_array Tint "buff" 1 (with_array Tint "src" 1 initial)));
        [|discriminate|frame_lookup|frame_lookup| |];
        rewrite ?length_replicate; cbn [sizeof]; try lia.
      reflexivity.
  - intros n Hn. pose proof (to_size_t_id n Hn) as Hid.
    unfold fault_of, run. rewrite !bind_declare.
    destruct (Z.leb_spec n 4) as [Hfit|Hlong].
    + edestruct (memset_fits "arr" n (with_array Tint "arr" 1 initial))
        as (s' & -> & _); [frame_lookup| |reflexivity].
      rewrite length_replicate; cbn [sizeof]; lia.
    + erewrite (memset_past_end "arr" n (with_array Tint "arr" 1 initial));
        [|frame_lookup|]; rewrite ?length_replicate; cbn [sizeof]; try lia.
      reflexivity.
Qed.

Lemma pointer_size_as_length_witness :
  in_size_t 8 /\
  fault_of (declare Tint "arr" 1 ;; memset "arr" 0 8) =
    (if 8 <=? 4 then None else Some (Overrun "arr" 4 4)).
Proof.
  assert (H : in_size_t 8) by (unfold in_size_t; lia).
  exact (conj H
    (proj2 (proj2 (proj2 (proj2 pointer_size_as_length))) 8 H)).
Defined.

(** X27: [False_Issue_Type_l3_unknown_function_Bad] allocates
    [(zero_to_infty() + 5) * sizeof(int)] bytes; as [zero_to_infty]
    returns [0], the request is for exactly [20] bytes, five [int]s.  The
    two tests leave [idx = 10] as the only index written, so whatever the
    unknown function returns the function either stops past the end of the
    five elements or makes no access to them. *)
Theorem False_Issue_Type_l3_never_in_bounds fuel u :
  (mul_int u 10 = 10 /\
   fault_of (False_Issue_Type_l3_unknown_function_Bad (S fuel) u) =
     Some (Overrun "a" 10 5)) \/
  (mul_int u 10 <> 10 /\
   fault_of (False_Issue_Type_l3_unknown_function_Bad (S fuel) u) = None /\
   events (False_Issue_Type_l3_unknown_function_Bad (S fuel) u) =
     Some [EvMalloc 20]).
Proof.
  unfold fault_of, events, run, False_Issue_Type_l3_unknown_function_Bad.
  change (zero_to_infty (S fuel)) with (Some 0). cbv zeta.
  change (to_size_t (to_size_t (add_int 0 5) * sizeof Tint)) with 20.
  unfold bind at 1. unfold bind at 1. unfold malloc_block.
  cbn [frame trace initial].
  destruct (Z.leb_spec 10 (mul_int u 10)) as [H1|H1];
    [destruct (Z.leb_spec (mul_int u 10) 10) as [H2|H2]|].
  - left. assert (Hidx : mul_int u 10 = 10) by lia.
    rewrite Hidx. split; [reflexivity|]. vm_compute. reflexivity.
  - right. repeat split; try reflexivity. lia.
  - right. repeat split; try reflexivity. lia.
Qed.

(** *** Values that go through memory *)

Lemma byte_of_div_mod v k : byte_of v k = (v / 2 ^ (8 * Z.of_nat k)) mod 256.
Proof.
  unfold byte_of. change 255 with (Z.ones 8).
  rewrite Z.land_ones by lia. rewrite Z.shiftr_div_pow2 by lia. reflexivity.
Qed.

(** The four bytes of an [int] value represent that value. *)
Lemma decode_encode_int v : in_int v -> decode Tint (encode Tint v) = Some v.
Proof.
  intros Hv. unfold decode.
  change (encode Tint v) with
    [Some (byte_of v 0); Some (byte_of v 1); Some (byte_of v 2);
     Some (byte_of v 3)].
  cbn [le_value]. rewrite !byte_of_div_mod.
  change (2 ^ (8 * Z.of_nat 0)) with 1.
  change (2 ^ (8 * Z.of_nat 1)) with 256.
  change (2 ^ (8 * Z.of_nat 2)) with 65536.
  change (2 ^ (8 * Z.of_nat 3)) with 16777216.
  unfold signed. change (2 ^ (8 * sizeof Tint - 1)) with 2147483648.
  change (2 ^ (8 * sizeof Tint)) with 4294967296.
  f_equal. int_bounds. change (2 ^ 31) with 2147483648 in *.
  zcases; Z.to_euclidean_division_equations; lia.
Qed.

Lemma length_encode t v : length (encode t v) = Z.to_nat (sizeof t).
Proof. unfold encode. now rewrite length_map, length_seq. Qed.

Lemma length_initialised t vs :
  length (concat (map (encode t) vs)) = (length vs * Z.to_nat (sizeof t))%nat.
Proof.
  induction vs as [|x vs IH]; [reflexivity|].
  cbn [map concat length]. rewrite length_app, length_encode, IH. lia.
Qed.

(** Element [j] of an initialised block is the representation of the
    [j]-th initial value. *)
Lemma element_initialised t vs : forall (j : nat) v,
  vs !! j = Some v ->
  element t (Z.of_nat j) (concat (map (encode t) vs)) = encode t v.
Proof.
  pose proof (sizeof_pos t) as Hs. unfold element.
  induction vs as [|x vs IH]; intros j v Hj; [discriminate Hj|].
  cbn [map concat]. destruct j as [|j].
  - injection Hj as ->. cbn [Z.of_nat Z.mul Z.to_nat]. rewrite drop_0.
    apply take_app_length'. now rewrite length_encode.
  - replace (Z.to_nat (Z.of_nat (S j) * sizeof t))
      with (Z.to_nat (sizeof t) + Z.to_nat (Z.of_nat j * sizeof t))%nat
      by nia.
    rewrite drop_app_add' by now rewrite length_encode.
    now apply IH.
Qed.

(** X28: what [memcpy_contents_Good] relies on, for any initial values:
    when an [int] array initialised with the values [vs] is copied whole
    into an array of the same size, element [j] of the copy reads as the
    [j]-th value of [vs]; the copy and the read complete without a
    fault. *)
Theorem memcpy_then_read (vs : list Z) (j : nat) (v : Z) :
  Forall in_int vs -> vs !! j = Some v ->
  Z.of_nat (length vs) * sizeof Tint < 2 ^ 64 ->
  exists s,
    run (declare_init Tint "src" vs ;;
         declare Tint "dst" (Z.of_nat (length vs)) ;;
         memcpy "dst" "src" (Z.of_nat (length vs) * sizeof Tint) ;;
         load Tint "dst" (Z.of_nat j)) = Done (v, s) /\
    frame s !! "dst" = Some (concat (map (encode Tint) vs)).
Proof.
  intros Hvs Hj Hsize.
  pose proof (lookup_lt_Some _ _ _ Hj) as Hlt.
  assert (Hv : in_int v) by (eapply Forall_lookup_1; eassumption).
  set (bs := concat (map (encode Tint) vs)).
  assert (Hlen : length bs = (length vs * 4)%nat)
    by (unfold bs; now rewrite length_initialised).
  unfold run. unfold bind at 1. unfold declare_init. cbn [frame trace initial].
  rewrite bind_declare. fold bs.
  set (s0 := with_array Tint "dst" _ _).
  assert (Hn : to_size_t (Z.of_nat (length vs) * sizeof Tint) =
               Z.of_nat (length bs)).
  { rewrite to_size_t_id by (unfold in_size_t; cbn [sizeof] in *; lia).
    cbn [sizeof]. lia. }
  edestruct (memcpy_fits "dst" "src" (Z.of_nat (length vs) * sizeof Tint) s0)
    as (s1 & Hrun & Hframe & _);
    [discriminate| | | | |].
  - unfold s0. frame_lookup.
  - unfold s0, with_array. cbn [frame].
    rewrite lookup_insert_ne by discriminate. apply lookup_insert_eq.
  - rewrite Hn, length_replicate. cbn [sizeof]. lia.
  - rewrite Hn. fold bs. lia.
  - unfold bind at 1. rewrite Hrun. unfold load. rewrite Hframe.
    rewrite lookup_insert_eq, Hn, Nat2Z.id.
    rewrite take_ge by (fold bs; lia).
    rewrite drop_ge by (rewrite length_replicate; cbn [sizeof]; lia).
    rewrite app_nil_r. fold bs.
    assert (He : elems Tint bs = Z.of_nat (length vs)).
    { unfold elems. rewrite Hlen. cbn [sizeof].
      rewrite Nat2Z.inj_mul. apply Z.div_mul. lia. }
    rewrite He.
    destruct (Z.ltb_spec (Z.of_nat j) 0); [lia|].
    destruct (Z.leb_spec (Z.of_nat (length vs)) (Z.of_nat j)); [lia|].
    unfold bs at 1. rewrite (element_initialised Tint vs j v Hj).
    rewrite decode_encode_int by exact Hv.
    eexists. split; [reflexivity|].
    cbn [frame]. apply lookup_insert_eq.
Qed.

Lemma memcpy_then_read_witness :
  exists s,
    run (declare_init Tint "src" [5; 5; 5] ;;
         declare Tint "dst" (Z.of_nat (length [5; 5; 5])) ;;
         memcpy "dst" "src" (Z.of_nat (length [5; 5; 5]) * sizeof Tint) ;;
         load Tint "dst" (Z.of_nat 0)) = Done (5, s) /\
    frame s !! "dst" = Some (concat (map (encode Tint) [5; 5; 5])).
Proof.
  apply (memcpy_then_read [5; 5; 5] 0 5).
  - repeat constructor; int_bounds; lia.
  - reflexivity.
  - vm_compute. reflexivity.
Defined.

(** ** issue_kinds.c, the callers of [zero_or_ten] *)

(** X29: [zero_or_ten] returns [0] or [10] and nothing else.  As an index
    of [int a[10]] it is in bounds exactly for the argument [0], and one
    less than it is in bounds exactly for a nonzero argument; one less
    than it is never an index of [int a[9]].  Hence the four [_Bad]
    callers stop out of bounds, three of the [_Good_FP] callers complete,
    and [l2_concrete_no_underrun_Good_FP], which writes [a[9]] of
    [int a[9]], has no underrun but stops one past the end of its array. *)
Theorem zero_or_ten_as_index :
  (forall ten, zero_or_ten ten = 0 \/ zero_or_ten ten = 10) /\
  (forall ten, in_bounds (zero_or_ten ten) 10 <-> ten = 0) /\
  (forall ten, in_bounds (sub_int (zero_or_ten ten) 1) 10 <-> ten <> 0) /\
  (forall ten, ~ in_bounds (sub_int (zero_or_ten ten) 1) 9) /\
  fault_of l2_concrete_overrun_Bad = Some (Overrun "a" 10 10) /\
  fault_of l2_concrete_underrun_Bad = Some (Underrun "a" (-1)) /\
  fault_of l3_concrete_overrun_Bad = Some (Overrun "a" 10 5) /\
  fault_of l3_concrete_underrun_Bad = Some (Underrun "a" (-1)) /\
  fault_of l2_concrete_no_overrun_Good_FP = None /\
  fault_of l3_concrete_no_overrun_Good_FP = None /\
  fault_of l3_concrete_no_underrun_Good_FP = None /\
  fault_of l2_concrete_no_underrun_Good_FP = Some (Overrun "a" 9 9).
Proof.
  assert (Hz : forall ten,
            zero_or_ten ten = if ten =? 0 then 0 else 10)
    by (intros ten; unfold zero_or_ten; now destruct (ten =? 0)).
  split; [|split; [|split; [|split]]].
  - intros ten. rewrite Hz. destruct (ten =? 0); auto.
  - intros ten. rewrite Hz. unfold in_bounds.
    destruct (Z.eqb_spec ten 0); split; intros; try lia; try contradiction.
  - intros ten. rewrite Hz. unfold in_bounds.
    destruct (Z.eqb_spec ten 0).
    + change (sub_int 0 1) with (-1). split; intros; [lia|contradiction].
    + change (sub_int 10 1) with 9. split; intros; [assumption|lia].
  - intros ten. rewrite Hz. unfold in_bounds.
    destruct (Z.eqb_spec ten 0).
    + change (sub_int 0 1) with (-1). lia.
    + change (sub_int 10 1) with 9. lia.
  - repeat split; vm_compute; reflexivity.
Qed.

Lemma zero_or_ten_as_index_witness :
  in_bounds (zero_or_ten 0) 10 /\ 0 = 0.
Proof.
  assert (H : in_bounds (zero_or_ten 0) 10)
    by (change (zero_or_ten 0) with 0; unfold in_bounds; lia).
  exact (conj H (proj1 (proj1 (proj2 zero_or_ten_as_index) 0) H)).
Defined.

(** X30: the sizes that the other allocation functions request:
    [alloc_is_negative_Bad] asks for [-2] bytes, [alloc_is_zero_Bad] for
    [0], [alloc_may_be_negative_Good_FP] for [5], a positive size; and in
    [alloc_may_be_big_Bad] and [alloc_may_be_big_Good_FP] the size
    [zero_or_ten(1) * 100 * 1000 * 1000 + 1] is [1000000001], every step of
    it an [int] value, so nothing wraps. *)
Theorem alloc_requests :
  events alloc_is_negative_Bad = Some [EvMalloc (-2)] /\
  events alloc_is_zero_Bad = Some [EvMalloc 0] /\
  events alloc_may_be_negative_Good_FP = Some [EvMalloc 5] /\
  events alloc_may_be_big_Bad = Some [EvMalloc 1000000001] /\
  events alloc_may_be_big_Good_FP = Some [EvMalloc 1000000001] /\
  in_int (zero_or_ten 1 * 100) /\
  in_int (zero_or_ten 1 * 100 * 1000) /\
  in_int (zero_or_ten 1 * 100 * 1000 * 1000) /\
  in_int (zero_or_ten 1 * 100 * 1000 * 1000 + 1) /\
  zero_or_ten 1 * 100 * 1000 * 1000 + 1 = 1000000001.
Proof.
  change (zero_or_ten 1) with 10. int_bounds.
  repeat (split; [first [vm_compute; reflexivity | lia]|]).
  reflexivity.
Qed.
